(** * Portfolio site: the card carousel, the contact form and the cursor widget

    A shallow embedding of the three stateful pieces of the site:
    - [InteractiveCards] (the carousel controller and its two render paths),
    - [ContactForm] ([handleChange] and the asynchronous [handleSubmit]),
    - [CustomCursor] (the mount effect and its cleanup, the handlers and
      what is drawn),
    and of the paged lists of [ProjectsPage] and [CertificatesPage] with the
    route table of [App].  The cards [AnimatePresence] keeps in the DOM
    while they exit are modelled in [Presence].

    JavaScript numbers that hold indices are modelled as [Z]; the [%]
    operator is the truncating remainder [Z.rem].  React state is passed
    explicitly: an event handler is a function from the state of the render
    it closes over to the state it sets, paired with the calls it makes to
    the outside world (router, toast, console, timers). *)

From Stdlib Require Import ZArith QArith Lia.
From stdpp Require Import base option list strings gmap.

Local Open Scope string_scope.
Local Open Scope Z_scope.

(** ** Calls that leave a component *)

(** Options object handed to [toast.success]. [autoClose] is in
    milliseconds; [progress: undefined] is [None]. *)
Module Toast.
Record Options := {
  position : string;
  autoClose : Z;
  hideProgressBar : bool;
  closeOnClick : bool;
  pauseOnHover : bool;
  draggable : bool;
  progress : option Z;
  theme : string
}.
End Toast.

(** What a handler may ask of its environment.  [NetworkRequest] stands for
    [fetch]/[XMLHttpRequest], which the browser offers to every handler. *)
Inductive Effect :=
| Navigate (path : string)
| PreventDefault
| SetTimeout (ms : Z)
| ConsoleLog (label : string) (data : gmap string string)
| ToastSuccess (msg : string) (opts : Toast.Options)
| NetworkRequest (url : string).

Definition is_navigate (e : Effect) : bool :=
  match e with Navigate _ => true | _ => false end.
Definition is_toast (e : Effect) : bool :=
  match e with ToastSuccess _ _ => true | _ => false end.
Definition is_request (e : Effect) : bool :=
  match e with NetworkRequest _ => true | _ => false end.

(** [arr[i]] for a number [i]: [undefined] outside the array. *)
Definition js_index {A} (arr : list A) (i : Z) : option A :=
  if 0 <=? i then arr !! Z.to_nat i else None.

(** ** InteractiveCards *)
Module Carousel.

Inductive CardType :=
| profile | about | projects | certificates | tech_stack | contact.

(** [card.type === 'profile'] *)
Definition is_profile (t : CardType) : bool :=
  match t with profile => true | _ => false end.

Record CardDataItem := {
  id : Z;
  title : string;
  content : string;
  type : CardType;
  link : string;
  icon : option string
}.

(** The deck compiled into the component. *)
Definition cardData : list CardDataItem := [
  {| id := 1; title := "Profile"; content := ""; type := profile;
     link := "/"; icon := Some "User" |};
  {| id := 2; title := "About Me";
     content := "Learn more about my background and skills.";
     type := about; link := "/about"; icon := Some "User" |};
  {| id := 3; title := "Projects";
     content := "Explore the projects I have worked on.";
     type := projects; link := "/projects"; icon := Some "FolderGit2" |};
  {| id := 4; title := "Certificates";
     content := "View my certifications and qualifications.";
     type := certificates; link := "/certificates"; icon := Some "Award" |};
  {| id := 5; title := "Tech Stack";
     content := "Discover the technologies I use.";
     type := tech_stack; link := "/tech-stack"; icon := Some "Layers" |}
].

(** The two [useState] cells. [direction] is [1], [-1] or [0]. *)
Record CarouselState := {
  activeIndex : Z;
  direction : Z
}.

Definition forward : Z := 1.
Definition backward : Z := -1.
Definition none : Z := 0.

(** [useState(0)] twice. *)
Definition initial : CarouselState :=
  {| activeIndex := 0; direction := 0 |}.

Inductive Position := left | right.
Inductive Animate := center | side (p : Position).

(** The props of one [motion.div] of the desktop carousel. *)
Record MotionCard := {
  mc_index : Z;
  mc_key : Z;
  mc_custom : Z;
  mc_animate : Animate;
  mc_cursor_pointer : bool;
  mc_interactive : bool;
  mc_view_button : bool
}.

Inductive Arrow := ArrowLeft | ArrowRight.

Section Deck.

(** The component is written against [cardData.length]; the deck is a
    variable here so that the index arithmetic is checked for every size. *)
Variable deck : list CardDataItem.

Definition N : Z := Z.of_nat (length deck).

Definition handleNavigation (st : CarouselState) (newIndex : Z)
  : CarouselState :=
  {| direction :=
       if newIndex >? activeIndex st then 1
       else if newIndex <? activeIndex st then -1 else 0;
     activeIndex := newIndex |}.

Definition goToNext (st : CarouselState) : CarouselState :=
  let nextIndex := Z.rem (activeIndex st + 1) N in
  handleNavigation st nextIndex.

Definition goToPrev (st : CarouselState) : CarouselState :=
  let prevIndex := Z.rem (activeIndex st - 1 + N) N in
  handleNavigation st prevIndex.

Definition prevIndex (st : CarouselState) : Z :=
  Z.rem (activeIndex st - 1 + N) N.
Definition nextIndex (st : CarouselState) : Z :=
  Z.rem (activeIndex st + 1) N.

(** One element of [[prevIndex, activeIndex, nextIndex].map(...)]; reading
    [card.id] of an [undefined] card throws, which is [None]. *)
Definition desktop_card (st : CarouselState) (index : Z)
  : option MotionCard :=
  card ← js_index deck index;
  let isActive := index =? activeIndex st in
  Some {| mc_index := index;
          mc_key := id card;
          mc_custom :=
            if isActive then 0 else if index =? nextIndex st then 1 else -1;
          mc_animate :=
            if isActive then center
            else side (if index =? prevIndex st then left else right);
          mc_cursor_pointer := negb isActive;
          mc_interactive := negb isActive;
          mc_view_button :=
            negb (is_profile (type card)) && isActive |}.

Definition render_desktop (st : CarouselState) : option (list MotionCard) :=
  mapM (desktop_card st) [prevIndex st; activeIndex st; nextIndex st].

(** [onClick] of a desktop card rendered for [index]. *)
Definition desktop_card_onClick (st : CarouselState) (index : Z)
    (card : CardDataItem) : CarouselState * list Effect :=
  if negb (index =? activeIndex st) then (handleNavigation st index, [])
  else if negb (is_profile (type card))
       then (st, [Navigate (link card)])
       else (st, []).

(** The click entry point of the desktop render layer: the closure built
    for [index] looks its card up in the deck. *)
Definition activate (st : CarouselState) (index : Z)
  : option (CarouselState * list Effect) :=
  card ← js_index deck index;
  Some (desktop_card_onClick st index card).

(** [onClick] of the "View ..." button inside the centre card. *)
Definition view_button_onClick (st : CarouselState) (card : CardDataItem)
  : CarouselState * list Effect :=
  (st, [Navigate (link card)]).

(** [onClick] of a card of the mobile strip. *)
Definition mobile_card_onClick (st : CarouselState) (card : CardDataItem)
  : CarouselState * list Effect :=
  (st, [Navigate (link card)]).

(** The mobile strip maps over the whole deck; tapping the item rendered
    for [index] runs the closure built for that card. *)
Definition render_mobile : list (Z * CardDataItem) :=
  imap (fun i card => (Z.of_nat i, card)) deck.

Definition mobile_tap (st : CarouselState) (index : Z)
  : option (CarouselState * list Effect) :=
  card ← js_index deck index;
  Some (mobile_card_onClick st card).

Definition arrow_onClick (a : Arrow) (st : CarouselState) : CarouselState :=
  match a with
  | ArrowLeft => goToPrev st
  | ArrowRight => goToNext st
  end.

(** A sequence of arrow clicks, each handled against the latest render. *)
Definition run_arrows (clicks : list Arrow) (st : CarouselState)
  : CarouselState :=
  foldl (fun s a => arrow_onClick a s) st clicks.

Definition in_range (st : CarouselState) : Prop :=
  0 <= activeIndex st < N.

End Deck.

(** *** [cardVariants] *)

(** An animation target. Numbers with a fractional part are the decimals
    the source writes; [blur] is the radius of [filter: blur(_px)]. *)
Module Motion.
Inductive Transition :=
| spring (stiffness damping : Z)
| tween (duration : Q).

Record Target := {
  x : Z;
  opacity : Q;
  scale : Q;
  blur : Z;
  zIndex : Z;
  transition : option Transition
}.
End Motion.

Definition cardVariants_enter (direction : Z) : Motion.Target :=
  {| Motion.x := if direction >? 0 then 300 else -300;
     Motion.opacity := 0;
     Motion.scale := 0.8;
     Motion.blur := 4;
     Motion.zIndex := 1;
     Motion.transition := None |}.

Definition cardVariants_center : Motion.Target :=
  {| Motion.x := 0;
     Motion.opacity := 1;
     Motion.scale := 1;
     Motion.blur := 0;
     Motion.zIndex := 2;
     Motion.transition := Some (Motion.spring 300 30) |}.

Definition cardVariants_exit (direction : Z) : Motion.Target :=
  {| Motion.x := if direction <? 0 then 300 else -300;
     Motion.opacity := 0;
     Motion.scale := 0.8;
     Motion.blur := 4;
     Motion.zIndex := 1;
     Motion.transition := Some (Motion.tween 0.3) |}.

Definition cardVariants_side (position : Position) : Motion.Target :=
  {| Motion.x := match position with left => -180 | right => 180 end;
     Motion.opacity := 0.5;
     Motion.scale := 0.85;
     Motion.blur := 3;
     Motion.zIndex := 1;
     Motion.transition := Some (Motion.spring 300 30) |}.

(** The [animate] prop of a card: the [center] variant by name, or the
    object [cardVariants.side(...)] returns. *)
Definition animate_target (c : MotionCard) : Motion.Target :=
  match mc_animate c with
  | center => cardVariants_center
  | side p => cardVariants_side p
  end.

(** [initial="enter"], resolved with the card's own [custom] prop. *)
Definition initial_target (c : MotionCard) : Motion.Target :=
  cardVariants_enter (mc_custom c).

(** The step an arrow click asks for, and the sum over a click sequence. *)
Definition arrow_delta (a : Arrow) : Z :=
  match a with ArrowLeft => -1 | ArrowRight => 1 end.

Definition net_steps (clicks : list Arrow) : Z :=
  foldr (fun a n => arrow_delta a + n) 0 clicks.

End Carousel.

(** ** ContactForm *)
Module ContactForm.

(** [{ name: '', email: '', message: '' }] *)
Definition emptyForm : gmap string string :=
  {[ "name" := ""; "email" := ""; "message" := "" ]}.

(** The two [useState] cells of the component. *)
Record FormState := {
  formData : gmap string string;
  isSubmitting : bool
}.

Definition initial : FormState :=
  {| formData := emptyForm; isSubmitting := false |}.

(** The page around the form: the component state, the calls of
    [handleSubmit] suspended at their [await] (each closed over the
    [formData] of the render that was submitted, oldest timer first), and
    the calls made to the environment so far. *)
Record Page := {
  form : FormState;
  awaiting : list (gmap string string);
  log : list Effect
}.

Definition load (st : FormState) : Page :=
  {| form := st; awaiting := []; log := [] |}.

Definition toastOptions : Toast.Options :=
  {| Toast.position := "bottom-right";
     Toast.autoClose := 3000;
     Toast.hideProgressBar := false;
     Toast.closeOnClick := true;
     Toast.pauseOnHover := true;
     Toast.draggable := true;
     Toast.progress := None;
     Toast.theme := "dark" |}.

(** [setFormData(prev => ({ ...prev, [name]: value }))] *)
Definition handleChange (name value : string) (p : Page) : Page :=
  {| form := {| formData := <[name := value]> (formData (form p));
                isSubmitting := isSubmitting (form p) |};
     awaiting := awaiting p;
     log := log p |}.

(** [handleSubmit] up to its [await]. *)
Definition handleSubmit (p : Page) : Page :=
  {| form := {| formData := formData (form p); isSubmitting := true |};
     awaiting := awaiting p ++ [formData (form p)];
     log := log p ++ [PreventDefault; SetTimeout 1000] |}.

(** The rest of [handleSubmit], run when its timer resolves the promise. *)
Definition handleSubmit_resume (captured : gmap string string) (p : Page)
  : Page :=
  {| form := {| formData := emptyForm; isSubmitting := false |};
     awaiting := awaiting p;
     log := log p ++ [ConsoleLog "Form Data Submitted:" captured;
                      ToastSuccess "Message sent successfully!"
                                   toastOptions] |}.

(** The oldest pending timer fires. *)
Definition timer_fires (p : Page) : Page :=
  match awaiting p with
  | [] => p
  | captured :: rest =>
      handleSubmit_resume captured
        {| form := form p; awaiting := rest; log := log p |}
  end.

(** The submit button carries [disabled={isSubmitting}]. *)
Definition submit_enabled (p : Page) : bool := negb (isSubmitting (form p)).

Definition type_into (edits : list (string * string)) (p : Page) : Page :=
  foldl (fun q e => handleChange e.1 e.2 q) p edits.

(** One submission seen from outside: submit, keep typing while the
    simulated request is in flight, then the timer fires. *)
Definition submit_and_wait (edits : list (string * string)) (p : Page)
  : Page :=
  timer_fires (type_into edits (handleSubmit p)).

(** What can happen to the form: a keystroke in the field [name], a click
    on the send button, the oldest timer firing. *)
Inductive Event :=
| Typed (name value : string)
| SendClicked
| TimerFired.

(** [value={formData.name}] and its two siblings: what a control shows. *)
Definition field (k : string) (p : Page) : string :=
  default "" (formData (form p) !! k).

Section Validation.

(** The three controls are [required], and the second one is
    [type="email"]: the browser fires [submit] only when none of them is
    empty and the address is one it accepts.  Which addresses a browser
    accepts is not part of the repository; it is a parameter here. *)
Variable email_valid : string -> bool.

Definition form_valid (p : Page) : bool :=
  negb (String.eqb (field "name" p) "") &&
  (negb (String.eqb (field "email" p) "") &&
   email_valid (field "email" p)) &&
  negb (String.eqb (field "message" p) "").

(** A click on the send button reaches [handleSubmit] only when the button
    is not disabled and the form passes validation. *)
Definition step (p : Page) (e : Event) : Page :=
  match e with
  | Typed name value => handleChange name value p
  | SendClicked =>
      if submit_enabled p && form_valid p then handleSubmit p else p
  | TimerFired => timer_fires p
  end.

Definition run (events : list Event) (p : Page) : Page :=
  foldl step p events.

End Validation.

Definition is_timeout (e : Effect) : bool :=
  match e with SetTimeout _ => true | _ => false end.
Definition is_log (e : Effect) : bool :=
  match e with ConsoleLog _ _ => true | _ => false end.

(** The value the edits leave in field [k]: that of the last edit of [k],
    if there is one. *)
Definition last_edit (k : string) (edits : list (string * string))
  : option string :=
  snd <$> last (List.filter (fun e => String.eqb (fst e) k) edits).

(** Either nothing is in flight and the button is enabled, or exactly one
    submission waits for its timer and the button is disabled. *)
Definition in_flight_consistent (p : Page) : Prop :=
  (isSubmitting (form p) = false /\ awaiting p = []) \/
  (isSubmitting (form p) = true /\ exists captured, awaiting p = [captured]).

(** Every timer set has produced its log line and its toast, or is still
    awaited; nothing else has been asked of the environment. *)
Definition accounted (p : Page) : Prop :=
  (length (List.filter is_toast (log p)) + length (awaiting p) =
     length (List.filter is_timeout (log p)))%nat /\
  length (List.filter is_log (log p)) =
    length (List.filter is_toast (log p)) /\
  List.filter is_request (log p) = [] /\
  List.filter is_navigate (log p) = [].

End ContactForm.

(** ** CustomCursor *)
Module CustomCursor.

Inductive Handler := handleMouseMove | handleMouseEnter | handleMouseLeave.

(** A function value handed to [addEventListener]: one of the three
    closures created by run [run] of the effect, or a function that belongs
    to other code. *)
Inductive Callback :=
| Closure (run : nat) (h : Handler)
| Other (f : nat).

Record Listener := {
  ev_type : string;
  callback : Callback
}.

Definition Handler_eqb (a b : Handler) : bool :=
  match a, b with
  | handleMouseMove, handleMouseMove
  | handleMouseEnter, handleMouseEnter
  | handleMouseLeave, handleMouseLeave => true
  | _, _ => false
  end.

Definition Callback_eqb (a b : Callback) : bool :=
  match a, b with
  | Closure r h, Closure r' h' => Nat.eqb r r' && Handler_eqb h h'
  | Other f, Other f' => Nat.eqb f f'
  | _, _ => false
  end.

Definition Listener_eqb (a b : Listener) : bool :=
  String.eqb (ev_type a) (ev_type b) && Callback_eqb (callback a) (callback b).

(** The part of the page the widget can reach: the listener lists of
    [document] and [document.body], and the inline style of the body. *)
Record Document := {
  document_listeners : list Listener;
  body_listeners : list Listener;
  body_style : gmap string string
}.

(** An event target ignores a listener it already holds. *)
Definition addEventListener (l : Listener) (ls : list Listener)
  : list Listener :=
  if existsb (Listener_eqb l) ls then ls else ls ++ [l].

Definition removeEventListener (l : Listener) (ls : list Listener)
  : list Listener :=
  List.filter (fun l' => negb (Listener_eqb l l')) ls.

(** The body of the [useEffect] callback, for its run number [run]. *)
Definition effect (run : nat) (d : Document) : Document :=
  {| document_listeners :=
       addEventListener
         {| ev_type := "mousemove"; callback := Closure run handleMouseMove |}
         (document_listeners d);
     body_listeners :=
       addEventListener
         {| ev_type := "mouseleave"; callback := Closure run handleMouseLeave |}
         (addEventListener
            {| ev_type := "mouseenter";
               callback := Closure run handleMouseEnter |}
            (body_listeners d));
     body_style := <["cursor" := "none"]> (body_style d) |}.

(** The function the effect returns. *)
Definition cleanup (run : nat) (d : Document) : Document :=
  {| document_listeners :=
       removeEventListener
         {| ev_type := "mousemove"; callback := Closure run handleMouseMove |}
         (document_listeners d);
     body_listeners :=
       removeEventListener
         {| ev_type := "mouseleave"; callback := Closure run handleMouseLeave |}
         (removeEventListener
            {| ev_type := "mouseenter";
               callback := Closure run handleMouseEnter |}
            (body_listeners d));
     body_style := <["cursor" := "auto"]> (body_style d) |}.

(** The three [useState] cells. *)
Record CursorState := {
  position : Z * Z;
  isPointer : bool;
  isVisible : bool
}.

Definition initial : CursorState :=
  {| position := (0, 0); isPointer := false; isVisible := true |}.

(** A mouse event as the handlers read it: [interactive] is whether
    [target.closest(...)] finds an element. *)
Inductive MouseEvent :=
| mousemove (clientX clientY : Z) (interactive : bool)
| mouseenter
| mouseleave.

Definition call (h : Handler) (e : MouseEvent) (st : CursorState)
  : CursorState :=
  match h with
  | handleMouseMove =>
      match e with
      | mousemove x y interactive =>
          {| position := (x, y);
             isPointer := if interactive then true else false;
             isVisible := isVisible st |}
      | _ => st
      end
  | handleMouseEnter =>
      {| position := position st; isPointer := isPointer st;
         isVisible := true |}
  | handleMouseLeave =>
      {| position := position st; isPointer := isPointer st;
         isVisible := false |}
  end.

Definition event_name (e : MouseEvent) : string :=
  match e with
  | mousemove _ _ _ => "mousemove"
  | mouseenter => "mouseenter"
  | mouseleave => "mouseleave"
  end.

(** The listener list an event is delivered to. *)
Definition target_listeners (e : MouseEvent) (d : Document) : list Listener :=
  match e with
  | mousemove _ _ _ => document_listeners d
  | _ => body_listeners d
  end.

(** Deliver [e]: every registered listener of that type runs, in order; the
    closures of run [run] act on the component state. *)
Definition dispatch (run : nat) (d : Document) (e : MouseEvent)
    (st : CursorState) : CursorState :=
  foldl (fun s l =>
           if String.eqb (ev_type l) (event_name e) then
             match callback l with
             | Closure r h => if Nat.eqb r run then call h e s else s
             | Other _ => s
             end
           else s)
        st (target_listeners e d).

(** No closure of run [run] is registered yet. *)
Definition fresh (run : nat) (d : Document) : Prop :=
  forall (l : Listener) (h : Handler),
    l ∈ (document_listeners d ++ body_listeners d)%list ->
    callback l <> Closure run h.

(** *** What the widget draws *)

Definition cursorSizeDefault : Z := 24.
Definition cursorSizePointer : Z := 36.

Module Variants.
Record Variant := {
  x : Z;
  y : Z;
  width : Z;
  height : Z;
  backgroundColor : string;
  mixBlendMode : string;
  borderRadius : string;
  scale : option Q;
  transition : Z * Z * option Q
}.
End Variants.

(** [cursorVariants.default] and [cursorVariants.pointer]; the sizes are
    even, so [size / 2] is exact. [transition] is the spring's stiffness,
    damping and mass. *)
Definition cursorVariants_default (st : CursorState) : Variants.Variant :=
  {| Variants.x := fst (position st) - cursorSizeDefault / 2;
     Variants.y := snd (position st) - cursorSizeDefault / 2;
     Variants.width := cursorSizeDefault;
     Variants.height := cursorSizeDefault;
     Variants.backgroundColor := "white";
     Variants.mixBlendMode := "difference";
     Variants.borderRadius := "50%";
     Variants.scale := None;
     Variants.transition := (500, 30, Some 0.5%Q) |}.

Definition cursorVariants_pointer (st : CursorState) : Variants.Variant :=
  {| Variants.x := fst (position st) - cursorSizePointer / 2;
     Variants.y := snd (position st) - cursorSizePointer / 2;
     Variants.width := cursorSizePointer;
     Variants.height := cursorSizePointer;
     Variants.backgroundColor := "white";
     Variants.mixBlendMode := "difference";
     Variants.borderRadius := "50%";
     Variants.scale := Some 1.1%Q;
     Variants.transition := (400, 25, None) |}.

(** The side of the square as drawn: [width] enlarged by [scale], which
    acts about the centre of the box and so leaves the centre where it
    is. *)
Definition drawn_side (v : Variants.Variant) : Q :=
  (inject_Z (Variants.width v) * default 1 (Variants.scale v))%Q.

(** The component's return value: [null] when the pointer is outside the
    page, else the [motion.div] animated to the variant [isPointer]
    selects. *)
Definition render (st : CursorState) : option Variants.Variant :=
  if negb (isVisible st) then None
  else Some (if isPointer st then cursorVariants_pointer st
             else cursorVariants_default st).

(** A page with a listener and inline styles of its own. *)
Definition busy_page : Document :=
  {| document_listeners :=
       [{| ev_type := "mousemove"; callback := Other 7 |}];
     body_listeners := [];
     body_style := {[ "cursor" := "wait"; "overflow" := "hidden" ]} |}.

End CustomCursor.

(** ** ProjectsPage, CertificatesPage and the routes of App *)
Module Pages.

(** [arr.slice(0, end)]: a negative [end] counts from the end of the
    array, and the result never runs past it. *)
Definition slice0 {A} (arr : list A) (end_ : Z) : list A :=
  let len := Z.of_nat (length arr) in
  let k := if end_ <? 0 then Z.max (len + end_) 0 else Z.min end_ len in
  take (Z.to_nat k) arr.

Record ProjectItem := {
  id : Z;
  title : string;
  description : string;
  imageUrl : string;
  liveLink : option string;
  sourceLink : option string
}.

Definition allProjects : list ProjectItem := [
  {| id := 1; title := "Database CRUD App";
     description := "Manage your database with this CRUD application. Create, Read, Update, and Delete records easily.";
     imageUrl := "/project/1.png";
     liveLink := None;
     sourceLink := Some "https://github.com/tsaqifassajeed/CRUD" |};
  {| id := 2; title := "Portfolio Website";
     description := "A personal portfolio website to showcase my projects and skills.";
     imageUrl := "/project/2.png";
     liveLink := Some "https://tsaqifassajeed.github.io/portofolio-web/";
     sourceLink := Some "https://github.com/tsaqifassajeed/portfolio-web" |}
].

Record CertificateItem := {
  cert_id : Z;
  cert_imageUrl : string;
  cert_title : string
}.

Definition allCertificates : list CertificateItem := [
  {| cert_id := 1; cert_imageUrl := "/certificate/1.png";
     cert_title := "Belajar HTML" |}
].

(** [useState(6)] *)
Definition initialCount : Z := 6.

Section Paged.

(** Both pages hold one counter over one list and are written alike:
    [showAllProjects]/[showAllCertificates] are [showAll],
    [visibleProjects]/[visibleCertificates] are [visible], at
    [allProjects] and [allCertificates]. *)
Context {A : Type}.
Variable all : list A.

Definition showAll (visibleCount : Z) : Z := Z.of_nat (length all).

Definition visible (visibleCount : Z) : list A := slice0 all visibleCount.

(** [visibleCount < all.length && <Button ...>See More</Button>] *)
Definition seeMore_shown (visibleCount : Z) : bool :=
  visibleCount <? Z.of_nat (length all).

(** ProjectsPage only: [visibleCount >= allProjects.length && ...] around
    the "Coming Soon!" card. *)
Definition comingSoon_shown (visibleCount : Z) : bool :=
  visibleCount >=? Z.of_nat (length all).

(** The counter after [n] clicks on the button, which is only there to be
    clicked while [seeMore_shown]. *)
Fixpoint after_clicks (n : nat) (visibleCount : Z) : Z :=
  match n with
  | O => visibleCount
  | S n' =>
      if seeMore_shown visibleCount
      then after_clicks n' (showAll visibleCount)
      else visibleCount
  end.

End Paged.

(** The [<Route>] table of [App]. *)
Inductive Element :=
| HomePageLayout | ProjectsPage | AboutPage | CertificatesPage
| TechStackPage.

Definition routes : list (string * Element) := [
  ("/", HomePageLayout);
  ("/projects", ProjectsPage);
  ("/about", AboutPage);
  ("/certificates", CertificatesPage);
  ("/tech-stack", TechStackPage)
].

End Pages.

(** ** The cards in the DOM: AnimatePresence *)
Module Presence.
Import Carousel.







Section Deck.

Variable deck : list CardDataItem.



End Deck.

End Presence.

(** * Properties *)

(** ** The carousel controller *)
Module CarouselFacts.
Import Carousel.

Create HintDb carousel.

(** The truncating remainder on the two arguments the component gives it. *)
Lemma rem_succ (a n : Z) :
  0 <= a < n -> Z.rem (a + 1) n = if a + 1 =? n then 0 else a + 1.
Proof.
  intros Ha. rewrite Z.rem_mod_nonneg by lia.
  destruct (Z.eqb_spec (a + 1) n) as [->|Hne].
  - apply Z_mod_same_full.
  - apply Z.mod_small. lia.
Qed.

Lemma rem_pred (a n : Z) :
  0 <= a < n -> Z.rem (a - 1 + n) n = if a =? 0 then n - 1 else a - 1.
Proof.
  intros Ha. rewrite Z.rem_mod_nonneg by lia.
  destruct (Z.eqb_spec a 0) as [->|Hne].
  - replace (0 - 1 + n) with (n - 1) by lia. apply Z.mod_small. lia.
  - replace (a - 1 + n) with (a - 1 + 1 * n) by lia.
    rewrite Z_mod_plus_full. apply Z.mod_small. lia.
Qed.

Lemma js_index_in_range {A} (arr : list A) (i : Z) :
  0 <= i < Z.of_nat (length arr) -> is_Some (js_index arr i).
Proof.
  intros Hi. unfold js_index.
  destruct (Z.leb_spec 0 i); [|lia].
  apply lookup_lt_is_Some. lia.
Qed.

Lemma js_index_Some_range {A} (arr : list A) (i : Z) (x : A) :
  js_index arr i = Some x -> 0 <= i < Z.of_nat (length arr).
Proof.
  unfold js_index. destruct (Z.leb_spec 0 i); [|discriminate].
  intros Hx. apply lookup_lt_Some in Hx. lia.
Qed.


Section Deck.

Variable deck : list CardDataItem.

Lemma activeIndex_goToNext (st : CarouselState) :
  in_range deck st ->
  activeIndex (goToNext deck st) =
    if activeIndex st + 1 =? N deck then 0 else activeIndex st + 1.
Proof. intros H. cbn. by apply rem_succ. Qed.

Lemma activeIndex_goToPrev (st : CarouselState) :
  in_range deck st ->
  activeIndex (goToPrev deck st) =
    if activeIndex st =? 0 then N deck - 1 else activeIndex st - 1.
Proof. intros H. cbn. by apply rem_pred. Qed.

Lemma goToNext_in_range (st : CarouselState) :
  in_range deck st -> in_range deck (goToNext deck st).
Proof.
  intros H. unfold in_range in *.
  rewrite activeIndex_goToNext by done. case Z.eqb_spec; lia.
Qed.

Lemma goToPrev_in_range (st : CarouselState) :
  in_range deck st -> in_range deck (goToPrev deck st).
Proof.
  intros H. unfold in_range in *.
  rewrite activeIndex_goToPrev by done. case Z.eqb_spec; lia.
Qed.

Hint Resolve goToNext_in_range goToPrev_in_range : carousel.

Lemma arrow_onClick_in_range (a : Arrow) (st : CarouselState) :
  in_range deck st -> in_range deck (arrow_onClick deck a st).
Proof. destruct a; cbn; auto with carousel. Qed.

Lemma run_arrows_in_range (clicks : list Arrow) (st : CarouselState) :
  in_range deck st -> in_range deck (run_arrows deck clicks st).
Proof.
  revert st. induction clicks as [|a clicks IH]; intros st Hst; [done|].
  cbn. apply IH. by apply arrow_onClick_in_range.
Qed.

(** C1: from the initial state, on a deck of length at least one, every
    sequence of clicks on the two arrows ([goToPrev]/[goToNext]) leaves
    [activeIndex] within [[0, N)], where it indexes a card of the deck. *)
Theorem activeIndex_stays_in_range (clicks : list Arrow) :
  1 <= N deck ->
  0 <= activeIndex (run_arrows deck clicks initial) < N deck /\
  is_Some (js_index deck (activeIndex (run_arrows deck clicks initial))).
Proof.
  intros HN.
  assert (in_range deck (run_arrows deck clicks initial)) as H.
  { apply run_arrows_in_range. unfold in_range. cbn. lia. }
  split; [exact H|]. by apply js_index_in_range.
Qed.

(** On any deck of two or more cards, [goToPrev] from the first card lands
    on the last one; [handleNavigation] sees a larger index and records the
    move as [forward]. *)
Lemma goToPrev_wraps (d : Z) :
  2 <= N deck ->
  goToPrev deck {| activeIndex := 0; direction := d |} =
    {| activeIndex := N deck - 1; direction := forward |}.
Proof.
  intros HN. unfold goToPrev, handleNavigation. cbn.
  rewrite rem_pred by lia. cbn.
  destruct (Z.gtb_spec (N deck - 1) 0); [|lia].
  destruct (Z.ltb_spec (N deck - 1) 0); [lia|]. reflexivity.
Qed.

(** C5: [handleNavigation] compares the target with the index of the render
    it closes over: the direction is [forward] exactly when the target is
    greater, [backward] exactly when it is smaller, [none] exactly when they
    are equal; the new [activeIndex] is the target. *)
Theorem handleNavigation_spec (st : CarouselState) (targetIndex : Z) :
  activeIndex (handleNavigation st targetIndex) = targetIndex /\
  (direction (handleNavigation st targetIndex) = forward <->
     targetIndex > activeIndex st) /\
  (direction (handleNavigation st targetIndex) = backward <->
     targetIndex < activeIndex st) /\
  (direction (handleNavigation st targetIndex) = none <->
     targetIndex = activeIndex st).
Proof.
  unfold handleNavigation, forward, backward, none. cbn.
  destruct (Z.gtb_spec targetIndex (activeIndex st));
    destruct (Z.ltb_spec targetIndex (activeIndex st)); lia.
Qed.

Lemma prevIndex_in_range (st : CarouselState) :
  in_range deck st -> 0 <= prevIndex deck st < N deck.
Proof.
  intros H. unfold in_range in H. unfold prevIndex.
  rewrite rem_pred by done. case Z.eqb_spec; lia.
Qed.

Lemma nextIndex_in_range (st : CarouselState) :
  in_range deck st -> 0 <= nextIndex deck st < N deck.
Proof.
  intros H. unfold in_range in H. unfold nextIndex.
  rewrite rem_succ by done. case Z.eqb_spec; lia.
Qed.

(** C6: for an in-range [activeIndex], [prevIndex] and [nextIndex] are the
    mathematical residues [(activeIndex - 1 + N) mod N] and
    [(activeIndex + 1) mod N]; both differ from [activeIndex] on a deck of
    three or more, both equal it on a deck of one, and on a deck of two both
    are the one other index. *)
Theorem neighbors_spec (st : CarouselState) :
  in_range deck st ->
  prevIndex deck st = (activeIndex st - 1 + N deck) mod N deck /\
  nextIndex deck st = (activeIndex st + 1) mod N deck /\
  (3 <= N deck ->
     prevIndex deck st <> activeIndex st /\
     nextIndex deck st <> activeIndex st) /\
  (N deck = 1 ->
     prevIndex deck st = activeIndex st /\
     nextIndex deck st = activeIndex st) /\
  (N deck = 2 ->
     forall other, 0 <= other < N deck -> other <> activeIndex st ->
       prevIndex deck st = other /\ nextIndex deck st = other).
Proof.
  intros H. unfold in_range in H.
  split; [unfold prevIndex; apply Z.rem_mod_nonneg; lia|].
  split; [unfold nextIndex; apply Z.rem_mod_nonneg; lia|].
  unfold prevIndex, nextIndex.
  rewrite rem_pred, rem_succ by done.
  repeat split; try intros; repeat case Z.eqb_spec; lia.
Qed.

(** C7: on an in-range state, [goToNext] then [goToPrev], and [goToPrev]
    then [goToNext], give back the original [activeIndex]; the direction is
    not given back in general. *)
Theorem advance_retreat_inverse (st : CarouselState) :
  in_range deck st ->
  activeIndex (goToPrev deck (goToNext deck st)) = activeIndex st /\
  activeIndex (goToNext deck (goToPrev deck st)) = activeIndex st /\
  exists d, (d = none \/ d = forward) /\
    direction (goToPrev deck (goToNext deck
                 {| activeIndex := activeIndex st; direction := d |})) <> d.
Proof.
  intros H.
  pose proof (goToNext_in_range st H) as Hn.
  pose proof (goToPrev_in_range st H) as Hp.
  unfold in_range in H.
  split; [|split].
  - rewrite activeIndex_goToPrev, activeIndex_goToNext by done.
    repeat case Z.eqb_spec; lia.
  - rewrite activeIndex_goToNext, activeIndex_goToPrev by done.
    repeat case Z.eqb_spec; lia.
  - unfold goToPrev, goToNext, handleNavigation, none, forward. cbn.
    set (final := if _ >? _ then _ else _).
    destruct (Z.eq_dec final 0) as [Hf|Hf].
    + exists 1. split; [by right|]. cbn. fold final. lia.
    + exists 0. split; [by left|]. cbn. fold final. lia.
Qed.

Lemma render_desktop_indices (st : CarouselState) (cards : list MotionCard) :
  render_desktop deck st = Some cards ->
  mc_index <$> cards = [prevIndex deck st; activeIndex st; nextIndex deck st].
Proof.
  unfold render_desktop, desktop_card. cbn.
  destruct (js_index deck (prevIndex deck st)); [|discriminate].
  destruct (js_index deck (activeIndex st)); [|discriminate].
  destruct (js_index deck (nextIndex deck st)); [|discriminate].
  cbn. intros [= <-]. reflexivity.
Qed.


(** C2: a click on the centre card of the desktop carousel leaves
    [activeIndex] and [direction] as they are; it calls the router nowhere
    when the card is the profile card, and exactly once, with the card's
    link, otherwise. *)
Theorem activate_center (st : CarouselState) (card : CardDataItem) :
  js_index deck (activeIndex st) = Some card ->
  exists out,
    activate deck st (activeIndex st) = Some (st, out) /\
    (type card = profile -> out = []) /\
    (type card <> profile -> out = [Navigate (link card)]).
Proof.
  intros Hcard. unfold activate, desktop_card_onClick.
  rewrite Hcard. cbn. rewrite Z.eqb_refl. cbn.
  destruct (type card) eqn:Ht; cbn; eexists; (split; [reflexivity|]);
    split; intros; congruence.
Qed.

(** Clicks on the three rendered cards keep [activeIndex] in range too. *)
Lemma activate_in_range (st st' : CarouselState) (index : Z)
    (out : list Effect) :
  in_range deck st ->
  activate deck st index = Some (st', out) ->
  in_range deck st'.
Proof.
  intros H. unfold activate, desktop_card_onClick.
  destruct (js_index deck index) as [card|] eqn:Hcard; [|discriminate].
  apply js_index_Some_range in Hcard. cbn.
  destruct (index =? activeIndex st); cbn.
  - destruct (is_profile (type card)); cbn; by intros [= <- _].
  - by intros [= <- _].
Qed.

Lemma render_mobile_lookup (k : Z) (card : CardDataItem) :
  (k, card) ∈ render_mobile deck -> js_index deck k = Some card.
Proof.
  unfold render_mobile. intros Hin.
  apply elem_of_lookup_imap in Hin as (i & c & Heq & Hi).
  injection Heq as -> ->. unfold js_index.
  destruct (Z.leb_spec 0 (Z.of_nat i)); [|lia]. by rewrite Nat2Z.id.
Qed.

(** C4, as the code has it: in the mobile strip a tap on any rendered item
    calls the router exactly once with that item's link (the profile card
    included) and leaves [activeIndex] and [direction] as they are. *)
Theorem mobile_tap_navigates (st : CarouselState) (k : Z)
    (card : CardDataItem) :
  (k, card) ∈ render_mobile deck ->
  mobile_tap deck st k = Some (st, [Navigate (link card)]).
Proof.
  intros Hin. apply render_mobile_lookup in Hin.
  unfold mobile_tap. by rewrite Hin.
Qed.

End Deck.

(** ** The deck of the site *)

Ltac deck_range := unfold in_range, N; cbn; lia.

Lemma activeIndex_stays_in_range_witness :
  1 <= N cardData /\
  (0 <= activeIndex
          (run_arrows cardData
             [ArrowLeft; ArrowRight; ArrowRight; ArrowLeft] initial)
      < N cardData /\
   is_Some (js_index cardData
              (activeIndex
                 (run_arrows cardData
                    [ArrowLeft; ArrowRight; ArrowRight; ArrowLeft]
                    initial)))).
Proof.
  split; [deck_range|].
  apply (activeIndex_stays_in_range cardData
           [ArrowLeft; ArrowRight; ArrowRight; ArrowLeft]).
  deck_range.
Defined.

(** C3: on the five-card deck, [goToPrev] from [activeIndex = 0] sets
    [activeIndex] to 4; the direction it records is [forward] (1), not
    [backward] (-1), because [handleNavigation] compares 4 with 0. *)
Theorem goToPrev_from_first (d : Z) :
  goToPrev cardData {| activeIndex := 0; direction := d |} =
    {| activeIndex := 4; direction := forward |} /\
  direction (goToPrev cardData {| activeIndex := 0; direction := d |})
    <> backward.
Proof. split; [reflexivity | discriminate]. Qed.

(** The mirror case: [goToNext] from the last card records [backward]. *)
Example goToNext_from_last :
  goToNext cardData {| activeIndex := 4; direction := forward |} =
    {| activeIndex := 0; direction := backward |}.
Proof. reflexivity. Qed.

Example goToNext_from_first :
  goToNext cardData initial = {| activeIndex := 1; direction := forward |}.
Proof. reflexivity. Qed.

Lemma neighbors_spec_witness :
  in_range cardData initial /\
  prevIndex cardData initial <> activeIndex initial /\
  nextIndex cardData initial <> activeIndex initial.
Proof.
  assert (in_range cardData initial) as H by deck_range.
  split; [exact H|].
  destruct (neighbors_spec cardData initial H) as (_ & _ & H3 & _).
  apply H3. deck_range.
Defined.

Lemma advance_retreat_inverse_witness :
  in_range cardData {| activeIndex := 4; direction := forward |} /\
  activeIndex
    (goToPrev cardData
       (goToNext cardData {| activeIndex := 4; direction := forward |})) = 4.
Proof.
  assert (in_range cardData {| activeIndex := 4; direction := forward |})
    as H by deck_range.
  split; [exact H|].
  exact (proj1 (advance_retreat_inverse cardData _ H)).
Defined.



Example render_desktop_initial :
  (fun c => (mc_index c, mc_key c, mc_custom c, mc_animate c)) <$>
    default [] (render_desktop cardData initial) =
  [(4, 5, -1, side left); (0, 1, 0, center); (1, 2, 1, side right)].
Proof. reflexivity. Qed.

Lemma activate_center_witness :
  js_index cardData 1 = Some
    {| id := 2; title := "About Me";
       content := "Learn more about my background and skills.";
       type := about; link := "/about"; icon := Some "User" |} /\
  exists out,
    activate cardData {| activeIndex := 1; direction := forward |} 1 =
      Some ({| activeIndex := 1; direction := forward |}, out) /\
    (about = profile -> out = []) /\
    (about <> profile -> out = [Navigate "/about"]).
Proof.
  split; [reflexivity|].
  exact (activate_center cardData
           {| activeIndex := 1; direction := forward |} _ eq_refl).
Defined.

Example click_center_profile :
  activate cardData initial 0 = Some (initial, []).
Proof. reflexivity. Qed.

Example click_center_about :
  activate cardData {| activeIndex := 1; direction := forward |} 1 =
    Some ({| activeIndex := 1; direction := forward |}, [Navigate "/about"]).
Proof. reflexivity. Qed.

(** On the desktop, a click on a side card re-centres without navigating. *)
Example click_side_card :
  activate cardData initial 1 =
    Some ({| activeIndex := 1; direction := forward |}, []).
Proof. reflexivity. Qed.

(** C4 fails on the code: with the profile card active, a tap on the
    "About Me" item of the mobile strip (index 1) calls the router with
    [/about] and leaves the state alone; it does not re-centre as
    [handleNavigation] would. *)
Lemma mobile_tap_does_not_recenter :
  mobile_tap cardData initial 1 = Some (initial, [Navigate "/about"]) /\
  mobile_tap cardData initial 1 <> Some (handleNavigation initial 1, []) /\
  mobile_tap cardData initial 1 <> activate cardData initial 1.
Proof. repeat split; discriminate. Qed.

Lemma mobile_tap_navigates_witness :
  (1, {| id := 2; title := "About Me";
         content := "Learn more about my background and skills.";
         type := about; link := "/about"; icon := Some "User" |})
    ∈ render_mobile cardData /\
  mobile_tap cardData initial 1 = Some (initial, [Navigate "/about"]).
Proof.
  assert ((1, {| id := 2; title := "About Me";
                 content := "Learn more about my background and skills.";
                 type := about; link := "/about"; icon := Some "User" |})
            ∈ render_mobile cardData) as H.
  { unfold render_mobile. cbn. apply list_elem_of_further, list_elem_of_here. }
  split; [exact H|].
  exact (mobile_tap_navigates cardData initial 1 _ H).
Defined.

(** On the mobile strip even the profile card navigates (to [/]). *)
Example mobile_tap_profile :
  mobile_tap cardData initial 0 = Some (initial, [Navigate "/"]).
Proof. reflexivity. Qed.

End CarouselFacts.

(** ** The contact form *)
Module ContactFormFacts.
Import ContactForm.

Lemma type_into_frame (edits : list (string * string)) (p : Page) :
  isSubmitting (form (type_into edits p)) = isSubmitting (form p) /\
  awaiting (type_into edits p) = awaiting p /\
  log (type_into edits p) = log p.
Proof.
  revert p. induction edits as [|[name value] edits IH]; intros p; [done|].
  change (type_into ((name, value) :: edits) p)
    with (type_into edits (handleChange name value p)).
  destruct (IH (handleChange name value p)) as (-> & -> & ->). done.
Qed.

(** While the simulated request is in flight the button stays disabled,
    whatever is typed. *)
Lemma submitting_while_in_flight (edits : list (string * string)) (p : Page) :
  submit_enabled (type_into edits (handleSubmit p)) = false.
Proof.
  unfold submit_enabled.
  by destruct (type_into_frame edits (handleSubmit p)) as (-> & _ & _).
Qed.

(** C9: whatever the fields hold at submit time, and whatever is typed
    while the simulated request is in flight, once the timer has fired the
    three fields are the empty string, [isSubmitting] is back to [false],
    exactly one success toast (closing by itself after 3000 ms) has been
    shown, and nothing was sent to a server: the calls made are
    [preventDefault], [setTimeout(_, 1000)], [console.log] of the submitted
    data and [toast.success]. *)
Theorem handleSubmit_resets (fd : gmap string string)
    (edits : list (string * string)) :
  let p := submit_and_wait edits
             (load {| formData := fd; isSubmitting := false |}) in
  formData (form p) !! "name" = Some "" /\
  formData (form p) !! "email" = Some "" /\
  formData (form p) !! "message" = Some "" /\
  formData (form p) = emptyForm /\
  isSubmitting (form p) = false /\
  submit_enabled p = true /\
  awaiting p = [] /\
  log p = [PreventDefault; SetTimeout 1000;
           ConsoleLog "Form Data Submitted:" fd;
           ToastSuccess "Message sent successfully!" toastOptions] /\
  length (List.filter is_toast (log p)) = 1%nat /\
  Toast.autoClose toastOptions = 3000 /\
  List.filter is_request (log p) = [].
Proof.
  cbn zeta. unfold submit_and_wait, timer_fires.
  destruct (type_into_frame edits
              (handleSubmit (load {| formData := fd; isSubmitting := false |})))
    as (_ & Haw & Hlog).
  rewrite Haw. cbn. rewrite Hlog. cbn.
  repeat split; reflexivity.
Qed.

Example submit_filled_form :
  let filled :=
    type_into [("name", "Ada"); ("email", "ada@example.com");
               ("message", "Hello")] (load initial) in
  form (submit_and_wait [("message", "Hello again")] filled) = initial /\
  log (submit_and_wait [("message", "Hello again")] filled) =
    [PreventDefault; SetTimeout 1000;
     ConsoleLog "Form Data Submitted:"
       {[ "name" := "Ada"; "email" := "ada@example.com";
          "message" := "Hello" ]};
     ToastSuccess "Message sent successfully!" toastOptions].
Proof. split; reflexivity. Qed.

End ContactFormFacts.

(** ** The cursor widget *)
Module CustomCursorFacts.
Import CustomCursor.

Lemma Handler_eqb_eq (a b : Handler) : Handler_eqb a b = true <-> a = b.
Proof. destruct a, b; cbn; split; congruence. Qed.

Lemma Callback_eqb_eq (a b : Callback) : Callback_eqb a b = true <-> a = b.
Proof.
  destruct a as [r h|f], b as [r' h'|f']; cbn.
  - rewrite andb_true_iff, Nat.eqb_eq, Handler_eqb_eq.
    split; [intros [-> ->]; done | intros [= -> ->]; done].
  - split; discriminate.
  - split; discriminate.
  - rewrite Nat.eqb_eq. split; congruence.
Qed.

Lemma Listener_eqb_eq (a b : Listener) : Listener_eqb a b = true <-> a = b.
Proof.
  destruct a as [ta ca], b as [tb cb]. unfold Listener_eqb. cbn.
  rewrite andb_true_iff, String.eqb_eq, Callback_eqb_eq.
  split; [intros [-> ->]; done | intros [= -> ->]; done].
Qed.

Lemma Listener_eqb_neq (a b : Listener) : a <> b -> Listener_eqb a b = false.
Proof.
  intros Hne. destruct (Listener_eqb a b) eqn:E; [|done].
  by apply Listener_eqb_eq in E.
Qed.

Lemma existsb_absent (l : Listener) (ls : list Listener) :
  l ∉ ls -> existsb (Listener_eqb l) ls = false.
Proof.
  induction ls as [|x ls IH]; [done|].
  intros Hnin. apply not_elem_of_cons in Hnin as [Hne Hnin].
  cbn. by rewrite Listener_eqb_neq, IH.
Qed.

Lemma remove_absent (l : Listener) (ls : list Listener) :
  l ∉ ls -> removeEventListener l ls = ls.
Proof.
  unfold removeEventListener.
  induction ls as [|x ls IH]; [done|].
  intros Hnin. apply not_elem_of_cons in Hnin as [Hne Hnin].
  cbn. by rewrite Listener_eqb_neq, IH.
Qed.

Lemma remove_app (l : Listener) (xs ys : list Listener) :
  removeEventListener l (xs ++ ys) =
    (removeEventListener l xs ++ removeEventListener l ys)%list.
Proof. apply List.filter_app. Qed.

Lemma remove_here (l : Listener) :
  removeEventListener l [l] = [].
Proof.
  unfold removeEventListener. cbn.
  by rewrite (proj2 (Listener_eqb_eq l l) eq_refl).
Qed.

(** Adding a listener the target does not hold and removing it again gives
    back the list as it was. *)
Lemma remove_add (l : Listener) (ls : list Listener) :
  l ∉ ls -> removeEventListener l (addEventListener l ls) = ls.
Proof.
  intros Hnin. unfold addEventListener.
  rewrite existsb_absent by done.
  rewrite remove_app, remove_absent, remove_here by done.
  apply app_nil_r.
Qed.

Lemma add_absent (l : Listener) (ls : list Listener) :
  l ∉ ls -> addEventListener l ls = (ls ++ [l])%list.
Proof. intros Hnin. unfold addEventListener. by rewrite existsb_absent. Qed.

Lemma fresh_absent (run : nat) (d : Document) (t : string) (h : Handler) :
  fresh run d ->
  ({| ev_type := t; callback := Closure run h |} ∉ document_listeners d) /\
  ({| ev_type := t; callback := Closure run h |} ∉ body_listeners d).
Proof.
  intros Hfresh.
  split; intros Hin;
    (eapply (Hfresh _ h); [apply elem_of_app; eauto | reflexivity]).
Qed.

(** The listener lists after the effect has run on a page that holds none
    of its closures. *)
Lemma effect_listeners (run : nat) (d : Document) :
  fresh run d ->
  document_listeners (effect run d) =
    (document_listeners d ++
       [{| ev_type := "mousemove";
           callback := Closure run handleMouseMove |}])%list /\
  body_listeners (effect run d) =
    (body_listeners d ++
       [{| ev_type := "mouseenter";
           callback := Closure run handleMouseEnter |};
        {| ev_type := "mouseleave";
           callback := Closure run handleMouseLeave |}])%list.
Proof.
  intros Hfresh. unfold effect. cbn. split.
  - apply add_absent. by apply (fresh_absent run d).
  - rewrite (add_absent _ (body_listeners d))
      by by apply (fresh_absent run d).
    rewrite add_absent; [by rewrite <- app_assoc|].
    intros Hin. apply elem_of_app in Hin as [Hin|Hin].
    + by apply (fresh_absent run d "mouseleave" handleMouseLeave) in Hin.
    + apply list_elem_of_singleton in Hin. discriminate.
Qed.

(** The cleanup takes off exactly what the effect put on. *)
Lemma cleanup_effect_listeners (run : nat) (d : Document) :
  fresh run d ->
  document_listeners (cleanup run (effect run d)) = document_listeners d /\
  body_listeners (cleanup run (effect run d)) = body_listeners d.
Proof.
  intros Hfresh.
  destruct (effect_listeners run d Hfresh) as [Hdoc Hbody].
  pose proof (fresh_absent run d) as Habs.
  split.
  - unfold cleanup. cbn -[effect]. rewrite Hdoc.
    rewrite remove_app, remove_here, remove_absent by by apply Habs.
    apply app_nil_r.
  - unfold cleanup. cbn -[effect]. rewrite Hbody.
    rewrite !remove_app.
    rewrite (remove_absent _ (body_listeners d)) by by apply Habs.
    rewrite (remove_absent _ (body_listeners d)) by by apply Habs.
    unfold removeEventListener, Listener_eqb. cbn.
    repeat (rewrite Nat.eqb_refl; cbn). apply app_nil_r.
Qed.

(** C10: the effect sets the body's inline [cursor] to [none]; the cleanup
    sets it to [auto] and takes off the three listeners the effect put on,
    so that [document] and [document.body] hold the listeners they held
    before the mount; no other inline style property of the body is
    touched, by either of them. *)
Theorem cleanup_restores (run : nat) (d : Document) :
  fresh run d ->
  body_style (effect run d) !! "cursor" = Some "none" /\
  body_style (cleanup run (effect run d)) !! "cursor" = Some "auto" /\
  document_listeners (cleanup run (effect run d)) = document_listeners d /\
  body_listeners (cleanup run (effect run d)) = body_listeners d /\
  (forall prop : string, prop <> "cursor" ->
     body_style (effect run d) !! prop = body_style d !! prop /\
     body_style (cleanup run (effect run d)) !! prop = body_style d !! prop).
Proof.
  intros Hfresh.
  destruct (cleanup_effect_listeners run d Hfresh) as [Hdoc Hbody].
  split; [apply lookup_insert_eq|].
  split; [apply lookup_insert_eq|].
  split; [exact Hdoc|]. split; [exact Hbody|].
  intros prop Hprop. cbn. by rewrite !lookup_insert_ne.
Qed.

Lemma busy_page_fresh : fresh 0 busy_page.
Proof.
  intros l h Hin. cbn in Hin.
  apply list_elem_of_singleton in Hin as ->. discriminate.
Defined.

Lemma cleanup_restores_witness :
  fresh 0 busy_page /\
  body_style (effect 0 busy_page) !! "cursor" = Some "none" /\
  body_style (cleanup 0 (effect 0 busy_page)) !! "cursor" = Some "auto" /\
  document_listeners (cleanup 0 (effect 0 busy_page)) =
    document_listeners busy_page /\
  body_listeners (cleanup 0 (effect 0 busy_page)) =
    body_listeners busy_page /\
  (forall prop : string, prop <> "cursor" ->
     body_style (effect 0 busy_page) !! prop = body_style busy_page !! prop /\
     body_style (cleanup 0 (effect 0 busy_page)) !! prop =
       body_style busy_page !! prop).
Proof.
  split; [exact busy_page_fresh|].
  exact (cleanup_restores 0 busy_page busy_page_fresh).
Defined.

Example effect_busy_page :
  document_listeners (effect 0 busy_page) =
    [{| ev_type := "mousemove"; callback := Other 7 |};
     {| ev_type := "mousemove"; callback := Closure 0 handleMouseMove |}] /\
  body_listeners (effect 0 busy_page) =
    [{| ev_type := "mouseenter"; callback := Closure 0 handleMouseEnter |};
     {| ev_type := "mouseleave"; callback := Closure 0 handleMouseLeave |}] /\
  body_style (effect 0 busy_page) =
    {[ "cursor" := "none"; "overflow" := "hidden" ]} /\
  body_style (cleanup 0 (effect 0 busy_page)) =
    {[ "cursor" := "auto"; "overflow" := "hidden" ]}.
Proof. repeat split; reflexivity. Qed.

(** While mounted, the widget follows the pointer. *)
Example dispatch_while_mounted :
  dispatch 0 (effect 0 busy_page) (mousemove 10 20 true) initial =
    {| position := (10, 20); isPointer := true; isVisible := true |} /\
  dispatch 0 (effect 0 busy_page) mouseleave initial =
    {| position := (0, 0); isPointer := false; isVisible := false |}.
Proof. split; reflexivity. Qed.

(** The cleanup leaves [cursor: auto] whatever happened to the page
    between mount and unmount. *)
Lemma cleanup_cursor_auto (run : nat) (d : Document) :
  body_style (cleanup run d) !! "cursor" = Some "auto".
Proof. apply lookup_insert_eq. Qed.

Lemma dispatch_fresh (run : nat) (d : Document) (e : MouseEvent)
    (st : CursorState) :
  fresh run d -> dispatch run d e st = st.
Proof.
  intros Hfresh. unfold dispatch.
  assert (forall l, l ∈ target_listeners e d ->
                    forall h, callback l <> Closure run h) as Hall.
  { intros l Hin h. apply Hfresh. apply elem_of_app.
    destruct e; cbn in Hin; auto. }
  clear Hfresh. revert st.
  induction (target_listeners e d) as [|l ls IH]; intros st; [done|].
  cbn. rewrite IH by (intros; apply Hall; by apply list_elem_of_further).
  destruct (String.eqb _ _); [|done].
  destruct (callback l) as [r h|f] eqn:Hc; [|done].
  destruct (Nat.eqb_spec r run) as [->|]; [|done].
  exfalso. by apply (Hall l (list_elem_of_here _ _) h).
Qed.

(** X21: once the cleanup has run, no mouse event reaches the handlers of
    the widget any more: the component state stays as it is. *)
Lemma dispatch_after_cleanup (run : nat) (d : Document) (e : MouseEvent)
    (st : CursorState) :
  fresh run d -> dispatch run (cleanup run (effect run d)) e st = st.
Proof.
  intros Hfresh.
  destruct (cleanup_effect_listeners run d Hfresh) as [Hdoc Hbody].
  unfold dispatch.
  assert (target_listeners e (cleanup run (effect run d)) =
          target_listeners e d) as -> by (destruct e; done).
  by apply (dispatch_fresh run d e st).
Qed.

End CustomCursorFacts.

(** ** More on the carousel: click sequences, side cards, variants *)
Module CarouselExtra.
Import Carousel CarouselFacts.

Lemma net_steps_replicate (k : nat) (a : Arrow) :
  net_steps (replicate k a) = Z.of_nat k * arrow_delta a.
Proof.
  induction k as [|k IH]; [done|].
  cbn [replicate net_steps foldr]. fold (net_steps (replicate k a)).
  rewrite IH. lia.
Qed.

Section Deck.

Variable deck : list CardDataItem.

Lemma activeIndex_arrow_mod (a : Arrow) (st : CarouselState) :
  in_range deck st ->
  activeIndex (arrow_onClick deck a st) =
    (activeIndex st + arrow_delta a) mod N deck.
Proof.
  intros H. unfold in_range in H. destruct a; cbn.
  - rewrite Z.rem_mod_nonneg by lia.
    replace (activeIndex st - 1 + N deck)
      with (activeIndex st + -1 + 1 * N deck) by lia.
    apply Z_mod_plus_full.
  - apply Z.rem_mod_nonneg; lia.
Qed.

Lemma run_arrows_index (clicks : list Arrow) (st : CarouselState) :
  in_range deck st ->
  activeIndex (run_arrows deck clicks st) =
    (activeIndex st + net_steps clicks) mod N deck.
Proof.
  revert st. induction clicks as [|a clicks IH]; intros st H.
  - cbn. rewrite Z.add_0_r. symmetry. apply Z.mod_small. exact H.
  - change (run_arrows deck (a :: clicks) st)
      with (run_arrows deck clicks (arrow_onClick deck a st)).
    rewrite IH by by apply arrow_onClick_in_range.
    rewrite activeIndex_arrow_mod by done.
    rewrite Zplus_mod_idemp_l.
    change (net_steps (a :: clicks))
      with (arrow_delta a + net_steps clicks).
    f_equal. lia.
Qed.

(** X1: the card a sequence of arrow clicks ends on is the start index plus
    the number of right clicks minus the number of left clicks, modulo the
    deck length; the order of the clicks does not matter. *)
Theorem arrows_net_displacement (clicks clicks' : list Arrow)
    (st : CarouselState) :
  in_range deck st ->
  activeIndex (run_arrows deck clicks st) =
    (activeIndex st + net_steps clicks) mod N deck /\
  (net_steps clicks' = net_steps clicks ->
   activeIndex (run_arrows deck clicks' st) =
     activeIndex (run_arrows deck clicks st)).
Proof.
  intros H. split; [by apply run_arrows_index|].
  intros Hnet. rewrite !run_arrows_index by done. by rewrite Hnet.
Qed.

(** X2: as many clicks on one arrow as the deck has cards bring the
    carousel back to the card it started on. *)
Theorem full_cycle (a : Arrow) (st : CarouselState) :
  in_range deck st ->
  activeIndex (run_arrows deck (replicate (length deck) a) st) =
    activeIndex st.
Proof.
  intros H. rewrite run_arrows_index by done.
  rewrite net_steps_replicate. fold (N deck).
  rewrite Z.mul_comm, Z_mod_plus_full. apply Z.mod_small. exact H.
Qed.

(** X3: every card can be centred: from the initial state, [k] clicks on
    the right arrow centre the card of index [k]. *)
Theorem every_card_reachable (k : Z) :
  0 <= k < N deck ->
  activeIndex (run_arrows deck (replicate (Z.to_nat k) ArrowRight) initial)
    = k.
Proof.
  intros Hk. rewrite run_arrows_index by (unfold in_range; cbn; lia).
  rewrite net_steps_replicate. cbn [activeIndex initial arrow_delta].
  rewrite Z2Nat.id by lia.
  replace (0 + k * 1) with k by lia. apply Z.mod_small. lia.
Qed.

(** X4: [goToNext] records [forward] unless it wraps; from the last card it
    records [backward] (or [none] on a one-card deck). [goToPrev] records
    [backward] unless it wraps; from the first card it records [forward]
    (or [none] on a one-card deck). *)
Theorem arrow_direction (st : CarouselState) :
  in_range deck st ->
  direction (goToNext deck st) =
    (if activeIndex st + 1 <? N deck then forward
     else if N deck =? 1 then none else backward) /\
  direction (goToPrev deck st) =
    (if 0 <? activeIndex st then backward
     else if N deck =? 1 then none else forward).
Proof.
  intros H. unfold in_range in H.
  unfold goToNext, goToPrev, handleNavigation, forward, backward, none. cbn.
  rewrite rem_succ, rem_pred by done.
  split; repeat case Z.eqb_spec; repeat case Z.ltb_spec;
    repeat case Z.gtb_spec; lia.
Qed.

(** X5: on a deck of two or more cards, a click on the right-hand card is a
    click on the right arrow, and a click on the left-hand card is a click
    on the left arrow: same new state, no router call. *)
Theorem side_click_is_arrow (st : CarouselState) :
  in_range deck st ->
  2 <= N deck ->
  activate deck st (nextIndex deck st) = Some (goToNext deck st, []) /\
  activate deck st (prevIndex deck st) = Some (goToPrev deck st, []).
Proof.
  intros H HN.
  destruct (js_index_in_range deck _ (nextIndex_in_range deck st H))
    as [cn Hn].
  destruct (js_index_in_range deck _ (prevIndex_in_range deck st H))
    as [cp Hp].
  unfold in_range in H. unfold activate, desktop_card_onClick.
  rewrite Hn, Hp. cbn.
  assert ((nextIndex deck st =? activeIndex st) = false) as ->.
  { apply Z.eqb_neq. unfold nextIndex. rewrite rem_succ by done.
    case Z.eqb_spec; lia. }
  assert ((prevIndex deck st =? activeIndex st) = false) as ->.
  { apply Z.eqb_neq. unfold prevIndex. rewrite rem_pred by done.
    case Z.eqb_spec; lia. }
  done.
Qed.

(** X6: a desktop click never both moves the carousel and calls the router:
    it makes at most one call, a [navigate], and then the state is the one
    it started from; a click on a card that is not the centre one makes no
    call at all. *)
Theorem activate_moves_or_navigates (st st' : CarouselState) (index : Z)
    (out : list Effect) :
  activate deck st index = Some (st', out) ->
  (out = [] \/ st' = st) /\
  (length out <= 1)%nat /\
  Forall (fun e => is_navigate e = true) out /\
  (index <> activeIndex st -> out = [] /\ st' = handleNavigation st index).
Proof.
  unfold activate, desktop_card_onClick.
  destruct (js_index deck index) as [card|]; [|discriminate]. cbn.
  destruct (Z.eqb_spec index (activeIndex st)) as [->|Hne]; cbn.
  - destruct (is_profile (type card)); cbn; intros [= <- <-];
      repeat split; auto; try done; repeat constructor.
  - intros [= <- <-]. repeat split; auto.
Qed.

(** The three cards of the desktop carousel on a deck of three or more. *)
Lemma render_desktop_wide (st : CarouselState) :
  in_range deck st ->
  3 <= N deck ->
  exists cp ca cn,
    js_index deck (prevIndex deck st) = Some cp /\
    js_index deck (activeIndex st) = Some ca /\
    js_index deck (nextIndex deck st) = Some cn /\
    prevIndex deck st <> activeIndex st /\
    nextIndex deck st <> activeIndex st /\
    prevIndex deck st <> nextIndex deck st /\
    render_desktop deck st = Some [
      {| mc_index := prevIndex deck st; mc_key := id cp; mc_custom := -1;
         mc_animate := side left; mc_cursor_pointer := true;
         mc_interactive := true; mc_view_button := false |};
      {| mc_index := activeIndex st; mc_key := id ca; mc_custom := 0;
         mc_animate := center; mc_cursor_pointer := false;
         mc_interactive := false;
         mc_view_button := negb (is_profile (type ca)) |};
      {| mc_index := nextIndex deck st; mc_key := id cn; mc_custom := 1;
         mc_animate := side right; mc_cursor_pointer := true;
         mc_interactive := true; mc_view_button := false |} ].
Proof.
  intros H HN.
  destruct (js_index_in_range deck _ (prevIndex_in_range deck st H))
    as [cp Hp].
  destruct (js_index_in_range deck _ H) as [ca Ha].
  destruct (js_index_in_range deck _ (nextIndex_in_range deck st H))
    as [cn Hn].
  unfold in_range in H.
  assert (prevIndex deck st <> activeIndex st) as Hpa.
  { unfold prevIndex. rewrite rem_pred by done. case Z.eqb_spec; lia. }
  assert (nextIndex deck st <> activeIndex st) as Hna.
  { unfold nextIndex. rewrite rem_succ by done. case Z.eqb_spec; lia. }
  assert (prevIndex deck st <> nextIndex deck st) as Hpn.
  { unfold prevIndex, nextIndex. rewrite rem_pred, rem_succ by done.
    repeat case Z.eqb_spec; lia. }
  exists cp, ca, cn. repeat (split; [done|]).
  unfold render_desktop, desktop_card. cbn. rewrite Hp, Ha, Hn. cbn.
  rewrite !Z.eqb_refl.
  rewrite (proj2 (Z.eqb_neq _ _) Hpa), (proj2 (Z.eqb_neq _ _) Hna),
    (proj2 (Z.eqb_neq _ _) Hpn), (proj2 (Z.eqb_neq _ _) (not_eq_sym Hpn)).
  cbn. by rewrite andb_true_r, !andb_false_r.
Qed.

(** X7: on a deck of three or more cards the desktop carousel shows three
    different cards: the previous one on the left, the active one in the
    centre, the next one on the right; the side cards, and only they, are
    flagged interactive, and neither carries the view button. *)
Theorem render_roles (st : CarouselState) :
  in_range deck st ->
  3 <= N deck ->
  exists l c r,
    render_desktop deck st = Some [l; c; r] /\
    (mc_index l = prevIndex deck st /\ mc_index c = activeIndex st /\
     mc_index r = nextIndex deck st) /\
    (mc_index l <> mc_index c /\ mc_index r <> mc_index c /\
     mc_index l <> mc_index r) /\
    (mc_animate l = side left /\ mc_animate c = center /\
     mc_animate r = side right) /\
    (mc_custom l = -1 /\ mc_custom c = 0 /\ mc_custom r = 1) /\
    (mc_interactive l = true /\ mc_interactive c = false /\
     mc_interactive r = true) /\
    (mc_view_button l = false /\ mc_view_button r = false).
Proof.
  intros H HN.
  destruct (render_desktop_wide st H HN)
    as (cp & ca & cn & _ & _ & _ & Hpa & Hna & Hpn & Hr).
  eexists _, _, _. split; [exact Hr|]. cbn. done.
Qed.

Lemma js_index_id_inj (i j : Z) (c c' : CardDataItem) :
  NoDup (id <$> deck) ->
  js_index deck i = Some c -> js_index deck j = Some c' ->
  id c = id c' -> i = j.
Proof.
  intros Hnd Hi Hj Hid. unfold js_index in *.
  destruct (Z.leb_spec 0 i); [|discriminate].
  destruct (Z.leb_spec 0 j); [|discriminate].
  assert (Z.to_nat i = Z.to_nat j); [|lia].
  apply (NoDup_lookup _ _ _ (id c) Hnd); rewrite list_lookup_fmap.
  - by rewrite Hi.
  - by rewrite Hj, Hid.
Qed.

(** X8: when the cards of the deck have different ids and there are three
    or more of them, the three rendered cards have different React keys. *)
Theorem render_keys_distinct (st : CarouselState) :
  in_range deck st ->
  3 <= N deck ->
  NoDup (id <$> deck) ->
  exists cards,
    render_desktop deck st = Some cards /\ NoDup (mc_key <$> cards).
Proof.
  intros H HN Hnd.
  destruct (render_desktop_wide st H HN)
    as (cp & ca & cn & Hp & Ha & Hn & Hpa & Hna & Hpn & Hr).
  eexists. split; [exact Hr|]. cbn.
  assert (id cp <> id ca) as Kpa
    by (intros E; exact (Hpa (js_index_id_inj _ _ _ _ Hnd Hp Ha E))).
  assert (id cn <> id ca) as Kna
    by (intros E; exact (Hna (js_index_id_inj _ _ _ _ Hnd Hn Ha E))).
  assert (id cp <> id cn) as Kpn
    by (intros E; exact (Hpn (js_index_id_inj _ _ _ _ Hnd Hp Hn E))).
  rewrite !NoDup_cons, !not_elem_of_cons.
  repeat split; try apply not_elem_of_nil; try apply NoDup_nil_2;
    congruence.
Qed.

(** X9: on a deck of two cards both side slots hold the other card: it is
    rendered twice under one key, both times placed on the left with
    [custom = 1], so that it starts on the right of where it rests. *)
Theorem render_two_cards (st : CarouselState) :
  in_range deck st ->
  N deck = 2 ->
  exists s c,
    render_desktop deck st = Some [s; c; s] /\
    mc_index s <> activeIndex st /\
    mc_animate s = side left /\ mc_custom s = 1 /\
    Motion.x (initial_target s) = 300 /\
    Motion.x (animate_target s) = -180 /\
    mc_index c = activeIndex st /\ mc_animate c = center.
Proof.
  intros H HN.
  destruct (js_index_in_range deck _ (prevIndex_in_range deck st H))
    as [cp Hp].
  destruct (js_index_in_range deck _ H) as [ca Ha].
  unfold in_range in H.
  assert (nextIndex deck st = prevIndex deck st) as Hnp.
  { unfold prevIndex, nextIndex. rewrite rem_pred, rem_succ by done.
    repeat case Z.eqb_spec; lia. }
  assert (prevIndex deck st <> activeIndex st) as Hpa.
  { unfold prevIndex. rewrite rem_pred by done. case Z.eqb_spec; lia. }
  unfold render_desktop, desktop_card. rewrite Hnp. cbn.
  rewrite Hp, Ha. cbn. rewrite !Z.eqb_refl.
  rewrite (proj2 (Z.eqb_neq _ _) Hpa). cbn.
  eexists _, _. split; [reflexivity|]. cbn. done.
Qed.

(** X10: on a deck of one card the carousel renders that card three times,
    each time as the centre card, under one key. *)
Theorem render_one_card (st : CarouselState) :
  in_range deck st ->
  N deck = 1 ->
  exists c,
    render_desktop deck st = Some [c; c; c] /\
    mc_index c = activeIndex st /\ mc_animate c = center /\
    mc_interactive c = false.
Proof.
  intros H HN.
  destruct (js_index_in_range deck _ H) as [ca Ha].
  unfold in_range in H.
  assert (prevIndex deck st = activeIndex st) as Hp.
  { unfold prevIndex. rewrite rem_pred by done. case Z.eqb_spec; lia. }
  assert (nextIndex deck st = activeIndex st) as Hn.
  { unfold nextIndex. rewrite rem_succ by done. case Z.eqb_spec; lia. }
  unfold render_desktop, desktop_card. rewrite Hp, Hn. cbn.
  rewrite Ha. cbn. rewrite !Z.eqb_refl. cbn.
  eexists. split; [reflexivity|]. cbn. done.
Qed.

(** X11: on a deck of three or more cards each side card starts its
    [enter] animation off stage on the side where it comes to rest: the
    left card from 300 px left to 180 px left, the right card from 300 px
    right to 180 px right; the middle card rests at the centre variant. *)
Theorem side_cards_enter_from_their_side (st : CarouselState) :
  in_range deck st ->
  3 <= N deck ->
  exists l c r,
    render_desktop deck st = Some [l; c; r] /\
    Motion.x (initial_target l) = -300 /\
    Motion.x (animate_target l) = -180 /\
    Motion.x (initial_target r) = 300 /\
    Motion.x (animate_target r) = 180 /\
    animate_target c = cardVariants_center.
Proof.
  intros H HN.
  destruct (render_desktop_wide st H HN)
    as (cp & ca & cn & _ & _ & _ & _ & _ & _ & Hr).
  eexists _, _, _. split; [exact Hr|]. cbn. done.
Qed.

(** X12: the side an outgoing card leaves to after an arrow click on a
    deck of two or more: after the right arrow it leaves to the left,
    except on the wrap from the last card, where it leaves to the right;
    after the left arrow it leaves to the right, except on the wrap from
    the first card, where it leaves to the left. *)
Theorem exit_side_after_arrow (st : CarouselState) :
  in_range deck st ->
  2 <= N deck ->
  Motion.x (cardVariants_exit (direction (goToNext deck st))) =
    (if activeIndex st + 1 <? N deck then -300 else 300) /\
  Motion.x (cardVariants_exit (direction (goToPrev deck st))) =
    (if 0 <? activeIndex st then 300 else -300).
Proof.
  intros H HN. unfold in_range in H.
  unfold goToNext, goToPrev, handleNavigation. cbn.
  rewrite rem_succ, rem_pred by done.
  split; repeat case Z.eqb_spec; repeat case Z.ltb_spec;
    repeat case Z.gtb_spec; cbn; lia.
Qed.

Lemma desktop_card_view_button (st : CarouselState) (index : Z)
    (c : MotionCard) :
  desktop_card deck st index = Some c ->
  mc_view_button c = true ->
  mc_index c = activeIndex st /\
  exists card,
    js_index deck (activeIndex st) = Some card /\
    is_profile (type card) = false.
Proof.
  unfold desktop_card.
  destruct (js_index deck index) as [card|] eqn:Hcard; [|discriminate].
  cbn. intros [= <-]. cbn. intros Hv.
  apply andb_true_iff in Hv as [Hprof Hact].
  apply Z.eqb_eq in Hact. subst index.
  split; [done|]. exists card. split; [done|].
  by apply negb_true_iff.
Qed.

(** X13: the "View ..." button is rendered on the centre card only, and
    never on the profile card; a click on it makes the one router call a
    click on the centre card makes, and changes nothing else. *)
Theorem view_button_only_on_center (st : CarouselState)
    (cards : list MotionCard) (c : MotionCard) :
  render_desktop deck st = Some cards ->
  c ∈ cards ->
  mc_view_button c = true ->
  mc_index c = activeIndex st /\
  exists card,
    js_index deck (activeIndex st) = Some card /\
    type card <> profile /\
    view_button_onClick st card = (st, [Navigate (link card)]) /\
    activate deck st (mc_index c) = Some (view_button_onClick st card).
Proof.
  unfold render_desktop. cbn.
  destruct (desktop_card deck st (prevIndex deck st)) as [l|] eqn:Hl;
    [|discriminate].
  destruct (desktop_card deck st (activeIndex st)) as [m|] eqn:Hm;
    [|discriminate].
  destruct (desktop_card deck st (nextIndex deck st)) as [r|] eqn:Hr;
    [|discriminate].
  cbn. intros [= <-] Hin Hv.
  assert (exists index, desktop_card deck st index = Some c) as [index Hc].
  { apply elem_of_cons in Hin as [->|Hin]; [eauto|].
    apply elem_of_cons in Hin as [->|Hin]; [eauto|].
    apply list_elem_of_singleton in Hin as ->. eauto. }
  destruct (desktop_card_view_button st index c Hc Hv)
    as (Hidx & card & Hcard & Hprof).
  split; [done|]. exists card. split; [done|].
  split; [by destruct (type card)|]. split; [done|].
  unfold activate, desktop_card_onClick. rewrite Hidx, Hcard. cbn.
  by rewrite Z.eqb_refl, Hprof.
Qed.

End Deck.

(** X14: an outgoing card leaves on the side opposite to the one where an
    incoming card with the same direction starts, except for direction 0,
    where both are 300 px to the left ([x = -300]); incoming and outgoing
    cards are further out than the side slots, and the centre card is
    stacked above every other variant. *)
Theorem exit_mirrors_enter (d : Z) (p : Position) :
  Motion.x (cardVariants_exit d) =
    (if d =? 0 then Motion.x (cardVariants_enter d)
     else - Motion.x (cardVariants_enter d)) /\
  Motion.x (cardVariants_enter 0) = -300 /\
  Motion.x (cardVariants_exit 0) = -300 /\
  Z.abs (Motion.x (cardVariants_enter d)) = 300 /\
  Z.abs (Motion.x (cardVariants_exit d)) = 300 /\
  Z.abs (Motion.x (cardVariants_side p)) = 180 /\
  Motion.zIndex (cardVariants_enter d) < Motion.zIndex cardVariants_center /\
  Motion.zIndex (cardVariants_exit d) < Motion.zIndex cardVariants_center /\
  Motion.zIndex (cardVariants_side p) < Motion.zIndex cardVariants_center.
Proof. destruct d, p; cbn; lia. Qed.

(** X15: every path the carousel of the site hands to the router, from a
    desktop click or a mobile tap, in any state, is the path of a [Route]
    of [App]. *)
Theorem every_link_is_routed (st st' : CarouselState) (k : Z)
    (out : list Effect) (path : string) :
  activate cardData st k = Some (st', out) \/
  mobile_tap cardData st k = Some (st', out) ->
  Navigate path ∈ out ->
  exists element, (path, element) ∈ Pages.routes.
Proof.
  intros Hclick Hin.
  assert (exists card, js_index cardData k = Some card /\
                       (out = [] \/ out = [Navigate (link card)]))
    as (card & Hcard & Hout).
  { unfold activate, mobile_tap, desktop_card_onClick, mobile_card_onClick
      in Hclick.
    destruct (js_index cardData k) as [card|]; [|by destruct Hclick].
    exists card. split; [done|]. cbn in Hclick.
    destruct Hclick as [Hc|Hc].
    - destruct (k =? activeIndex st); cbn in Hc;
        [destruct (is_profile (type card)); cbn in Hc|];
        injection Hc as _ <-; auto.
    - injection Hc as _ <-; auto. }
  destruct Hout as [-> | ->]; [by apply elem_of_nil in Hin|].
  apply list_elem_of_singleton in Hin. injection Hin as ->.
  pose proof (js_index_Some_range _ _ _ Hcard) as Hk. cbn in Hk.
  assert (k = 0 \/ k = 1 \/ k = 2 \/ k = 3 \/ k = 4) as Hcases by lia.
  destruct Hcases as [Hk'|[Hk'|[Hk'|[Hk'|Hk']]]]; subst k;
    injection Hcard as <-; cbn; unfold Pages.routes; eexists;
    repeat first [apply list_elem_of_here | apply list_elem_of_further].
Qed.

Lemma arrows_net_displacement_witness :
  in_range cardData initial /\
  activeIndex
    (run_arrows cardData [ArrowLeft; ArrowLeft; ArrowRight] initial) =
    (0 + net_steps [ArrowLeft; ArrowLeft; ArrowRight]) mod N cardData.
Proof.
  assert (in_range cardData initial) as H by deck_range.
  split; [exact H|].
  exact (proj1 (arrows_net_displacement cardData
                  [ArrowLeft; ArrowLeft; ArrowRight] [] initial H)).
Defined.

Lemma full_cycle_witness :
  in_range cardData {| activeIndex := 2; direction := forward |} /\
  activeIndex
    (run_arrows cardData (replicate (length cardData) ArrowLeft)
       {| activeIndex := 2; direction := forward |}) = 2.
Proof.
  assert (in_range cardData {| activeIndex := 2; direction := forward |})
    as H by deck_range.
  split; [exact H|]. exact (full_cycle cardData ArrowLeft _ H).
Defined.

Lemma every_card_reachable_witness :
  0 <= 3 < N cardData /\
  activeIndex
    (run_arrows cardData (replicate (Z.to_nat 3) ArrowRight) initial) = 3.
Proof.
  assert (0 <= 3 < N cardData) as H by deck_range.
  split; [exact H|]. exact (every_card_reachable cardData 3 H).
Defined.

Lemma arrow_direction_witness :
  in_range cardData {| activeIndex := 4; direction := forward |} /\
  direction (goToNext cardData {| activeIndex := 4; direction := forward |})
    = backward.
Proof.
  assert (in_range cardData {| activeIndex := 4; direction := forward |})
    as H by deck_range.
  split; [exact H|]. exact (proj1 (arrow_direction cardData _ H)).
Defined.

Lemma side_click_is_arrow_witness :
  in_range cardData initial /\ 2 <= N cardData /\
  activate cardData initial (nextIndex cardData initial) =
    Some (goToNext cardData initial, []).
Proof.
  assert (in_range cardData initial) as H by deck_range.
  assert (2 <= N cardData) as HN by deck_range.
  split; [exact H|]. split; [exact HN|].
  exact (proj1 (side_click_is_arrow cardData initial H HN)).
Defined.

Lemma activate_moves_or_navigates_witness :
  activate cardData initial 1 =
    Some ({| activeIndex := 1; direction := forward |}, []) /\
  (([] : list Effect) = [] \/
   {| activeIndex := 1; direction := forward |} = initial).
Proof.
  assert (activate cardData initial 1 =
            Some ({| activeIndex := 1; direction := forward |}, []))
    as H by reflexivity.
  split; [exact H|].
  exact (proj1 (activate_moves_or_navigates cardData initial _ 1 [] H)).
Defined.

Lemma render_roles_witness :
  in_range cardData initial /\ 3 <= N cardData /\
  exists l c r,
    render_desktop cardData initial = Some [l; c; r] /\
    mc_animate l = side left /\ mc_animate c = center /\
    mc_animate r = side right.
Proof.
  assert (in_range cardData initial) as H by deck_range.
  assert (3 <= N cardData) as HN by deck_range.
  split; [exact H|]. split; [exact HN|].
  destruct (render_roles cardData initial H HN)
    as (l & c & r & Hr & _ & _ & (Hl & Hc & Hrr) & _).
  exists l, c, r. auto.
Defined.

Lemma cardData_ids_NoDup : NoDup (id <$> cardData).
Proof.
  cbn. rewrite !NoDup_cons, !not_elem_of_cons.
  repeat split; try apply not_elem_of_nil; try apply NoDup_nil_2;
    discriminate.
Qed.

Lemma render_keys_distinct_witness :
  in_range cardData initial /\ 3 <= N cardData /\
  NoDup (id <$> cardData) /\
  exists cards,
    render_desktop cardData initial = Some cards /\
    NoDup (mc_key <$> cards).
Proof.
  assert (in_range cardData initial) as H by deck_range.
  assert (3 <= N cardData) as HN by deck_range.
  split; [exact H|]. split; [exact HN|]. split; [exact cardData_ids_NoDup|].
  exact (render_keys_distinct cardData initial H HN cardData_ids_NoDup).
Defined.

Lemma render_two_cards_witness :
  in_range (take 2 cardData) initial /\ N (take 2 cardData) = 2 /\
  exists s c,
    render_desktop (take 2 cardData) initial = Some [s; c; s] /\
    mc_animate s = side left /\ mc_custom s = 1.
Proof.
  assert (in_range (take 2 cardData) initial) as H by deck_range.
  assert (N (take 2 cardData) = 2) as HN by reflexivity.
  split; [exact H|]. split; [exact HN|].
  destruct (render_two_cards (take 2 cardData) initial H HN)
    as (s & c & Hr & _ & Hs & Hc & _).
  exists s, c. auto.
Defined.

Lemma render_one_card_witness :
  in_range (take 1 cardData) initial /\ N (take 1 cardData) = 1 /\
  exists c,
    render_desktop (take 1 cardData) initial = Some [c; c; c] /\
    mc_animate c = center.
Proof.
  assert (in_range (take 1 cardData) initial) as H by deck_range.
  assert (N (take 1 cardData) = 1) as HN by reflexivity.
  split; [exact H|]. split; [exact HN|].
  destruct (render_one_card (take 1 cardData) initial H HN)
    as (c & Hr & _ & Hc & _).
  exists c. auto.
Defined.

Lemma side_cards_enter_from_their_side_witness :
  in_range cardData initial /\ 3 <= N cardData /\
  exists l c r,
    render_desktop cardData initial = Some [l; c; r] /\
    Motion.x (initial_target l) = -300 /\
    Motion.x (initial_target r) = 300.
Proof.
  assert (in_range cardData initial) as H by deck_range.
  assert (3 <= N cardData) as HN by deck_range.
  split; [exact H|]. split; [exact HN|].
  destruct (side_cards_enter_from_their_side cardData initial H HN)
    as (l & c & r & Hr & Hl & _ & Hrr & _).
  exists l, c, r. auto.
Defined.

Lemma exit_side_after_arrow_witness :
  in_range cardData initial /\ 2 <= N cardData /\
  Motion.x (cardVariants_exit (direction (goToPrev cardData initial)))
    = -300.
Proof.
  assert (in_range cardData initial) as H by deck_range.
  assert (2 <= N cardData) as HN by deck_range.
  split; [exact H|]. split; [exact HN|].
  exact (proj2 (exit_side_after_arrow cardData initial H HN)).
Defined.

Lemma view_button_only_on_center_witness :
  exists cards c,
    render_desktop cardData {| activeIndex := 2; direction := forward |}
      = Some cards /\
    c ∈ cards /\ mc_view_button c = true /\ mc_index c = 2.
Proof.
  destruct (render_desktop cardData
              {| activeIndex := 2; direction := forward |})
    as [cards|] eqn:Hr; [|discriminate].
  injection Hr as <-.
  eexists _, _. split; [reflexivity|].
  assert (forall c cards, c ∈ (cards : list MotionCard) ->
            render_desktop cardData
              {| activeIndex := 2; direction := forward |} = Some cards ->
            mc_view_button c = true -> mc_index c = 2) as K.
  { intros c cards Hin Hr Hv.
    exact (proj1 (view_button_only_on_center cardData _ cards c Hr Hin Hv)). }
  split; [apply list_elem_of_further, list_elem_of_here|].
  split; [reflexivity|].
  apply (K _ _ (list_elem_of_further _ _ _ (list_elem_of_here _ _))
           eq_refl eq_refl).
Defined.

Lemma every_link_is_routed_witness :
  mobile_tap cardData initial 4 = Some (initial, [Navigate "/tech-stack"]) /\
  Navigate "/tech-stack" ∈ [Navigate "/tech-stack"] /\
  exists element, ("/tech-stack", element) ∈ Pages.routes.
Proof.
  assert (Navigate "/tech-stack" ∈ [Navigate "/tech-stack"]) as Hin
    by apply list_elem_of_here.
  split; [reflexivity|]. split; [exact Hin|].
  exact (every_link_is_routed initial initial 4 _ "/tech-stack"
           (or_intror eq_refl) Hin).
Defined.

End CarouselExtra.

(** ** More on the contact form: edits and event sequences *)
Module ContactFormExtra.
Import ContactForm ContactFormFacts.

Lemma last_edit_cons (k name value : string) (edits : list (string * string)) :
  last_edit k ((name, value) :: edits) =
    match last_edit k edits with
    | Some v => Some v
    | None => if String.eqb name k then Some value else None
    end.
Proof.
  unfold last_edit. cbn.
  destruct (String.eqb name k); [|by destruct (last _)].
  rewrite last_cons. by destruct (last _).
Qed.

(** X16: after any sequence of keystrokes each field holds the value of
    the last keystroke made in it, and a field nothing was typed into holds
    what it held before; [isSubmitting] and the calls made are untouched. *)
Theorem last_edit_wins (edits : list (string * string)) (p : Page)
    (k : string) :
  formData (form (type_into edits p)) !! k =
    match last_edit k edits with
    | Some v => Some v
    | None => formData (form p) !! k
    end /\
  isSubmitting (form (type_into edits p)) = isSubmitting (form p) /\
  log (type_into edits p) = log p.
Proof.
  split; [|by destruct (type_into_frame edits p) as (-> & _ & ->)].
  revert p. induction edits as [|[name value] edits IH]; intros p; [done|].
  change (type_into ((name, value) :: edits) p)
    with (type_into edits (handleChange name value p)).
  rewrite IH, last_edit_cons.
  destruct (last_edit k edits); [done|]. cbn.
  destruct (String.eqb_spec name k) as [->|Hne].
  - apply lookup_insert_eq.
  - by apply lookup_insert_ne.
Qed.

Section Validation.

(** The browser's check of an address: any predicate. *)
Variable email_valid : string -> bool.

Lemma step_in_flight_consistent (p : Page) (e : Event) :
  in_flight_consistent p -> in_flight_consistent (step email_valid p e).
Proof.
  unfold in_flight_consistent.
  intros [[Hs Ha]|[Hs [c Ha]]]; destruct e as [name value| |]; cbn.
  - left. done.
  - unfold submit_enabled. rewrite Hs. cbn.
    destruct (form_valid email_valid p); [|by left]. right.
    split; [done|]. cbn. rewrite Ha. eauto.
  - unfold timer_fires. rewrite Ha. left. done.
  - right. eauto.
  - unfold submit_enabled. rewrite Hs. cbn. right. eauto.
  - unfold timer_fires. rewrite Ha. cbn. left. done.
Qed.

Lemma step_accounted (p : Page) (e : Event) :
  accounted p -> accounted (step email_valid p e).
Proof.
  unfold accounted. intros (Hc & Hl & Hr & Hn).
  destruct e as [name value| |]; cbn; [done| |].
  - destruct (submit_enabled p && form_valid email_valid p); [|done]. cbn.
    rewrite !List.filter_app, !length_app, Hr, Hn. cbn.
    repeat split; lia.
  - unfold timer_fires.
    destruct (awaiting p) as [|c rest] eqn:Ha; cbn; [by rewrite Ha|].
    rewrite !List.filter_app, !length_app, Hr, Hn. cbn.
    cbn in Hc. repeat split; lia.
Qed.

Lemma run_preserves (P : Page -> Prop) (events : list Event) (p : Page) :
  (forall q e, P q -> P (step email_valid q e)) ->
  P p -> P (run email_valid events p).
Proof.
  intros Hstep. revert p.
  induction events as [|e events IH]; intros p Hp; [done|].
  cbn. apply IH. by apply Hstep.
Qed.

(** A click on the send button while a required field is empty, or while
    the browser rejects the address, never reaches [handleSubmit]. *)
Lemma invalid_click_ignored (p : Page) :
  field "name" p = "" \/ field "email" p = "" \/
  email_valid (field "email" p) = false \/ field "message" p = "" ->
  step email_valid p SendClicked = p.
Proof.
  intros Hinv. cbn. unfold form_valid.
  destruct Hinv as [-> | [-> | [-> | ->]]]; cbn;
    by rewrite ?andb_false_r.
Qed.

(** X17: from an idle form, whatever is typed and however often the send
    button is clicked and timers fire, at most one submission is ever in
    flight, and the button is disabled exactly while one is; this holds
    whatever addresses the browser accepts. *)
Theorem one_submission_in_flight (events : list Event)
    (fd : gmap string string) :
  let p := run email_valid events
             (load {| formData := fd; isSubmitting := false |}) in
  (length (awaiting p) <= 1)%nat /\
  (submit_enabled p = true <-> awaiting p = []) /\
  (isSubmitting (form p) = true <-> exists captured, awaiting p = [captured]).
Proof.
  cbn zeta.
  assert (in_flight_consistent
            (run email_valid events
               (load {| formData := fd; isSubmitting := false |})))
    as H.
  { apply run_preserves; [apply step_in_flight_consistent|]. by left. }
  unfold submit_enabled.
  destruct H as [[-> ->]|[-> [c ->]]]; cbn.
  - split; [lia|]. split; [done|]. split; [done|]. by intros [? ?].
  - split; [lia|]. split; [done|]. split; [eauto|done].
Qed.

(** X18: under any sequence of events on the form, every timer set either
    is still awaited or has led to exactly one log line and one success
    toast; the form never sends a network request and never calls the
    router; this holds whatever addresses the browser accepts. *)
Theorem toasts_match_submissions (events : list Event)
    (fd : gmap string string) :
  let p := run email_valid events
             (load {| formData := fd; isSubmitting := false |}) in
  (length (List.filter is_toast (log p)) + length (awaiting p) =
     length (List.filter is_timeout (log p)))%nat /\
  length (List.filter is_log (log p)) =
    length (List.filter is_toast (log p)) /\
  List.filter is_request (log p) = [] /\
  List.filter is_navigate (log p) = [].
Proof.
  cbn zeta. apply (run_preserves accounted); [apply step_accounted|].
  unfold accounted. cbn. done.
Qed.

(** On the empty form a click on the send button makes no call at all. *)
Example empty_form_click :
  run email_valid [SendClicked; TimerFired] (load initial) = load initial.
Proof. reflexivity. Qed.

End Validation.

(** A filled form, with a browser that accepts the address: the second and
    third clicks fall on the disabled button. *)
Example impatient_user :
  let p := run (fun _ => true)
               [Typed "name" "Ada"; Typed "email" "ada@example.com";
                Typed "message" "Hello"; SendClicked; SendClicked;
                Typed "name" "Bob"; SendClicked; TimerFired; TimerFired]
               (load initial) in
  form p = initial /\
  log p = [PreventDefault; SetTimeout 1000;
           ConsoleLog "Form Data Submitted:"
             {[ "name" := "Ada"; "email" := "ada@example.com";
                "message" := "Hello" ]};
           ToastSuccess "Message sent successfully!" toastOptions].
Proof. split; reflexivity. Qed.

(** The same clicks with a browser that rejects the address: no call. *)
Example rejected_address :
  log (run (fun _ => false)
           [Typed "name" "Ada"; Typed "email" "ada";
            Typed "message" "Hello"; SendClicked; TimerFired]
           (load initial)) = [].
Proof. reflexivity. Qed.

End ContactFormExtra.

(** ** More on the cursor widget: events, remounts, what is drawn *)
Module CustomCursorExtra.
Import CustomCursor CustomCursorFacts.

Lemma dispatch_app (run : nat) (e : MouseEvent) (st : CursorState)
    (d : Document) (ours : list Listener) :
  fresh run d ->
  foldl (fun s l =>
           if String.eqb (ev_type l) (event_name e) then
             match callback l with
             | Closure r h => if Nat.eqb r run then call h e s else s
             | Other _ => s
             end
           else s)
        st (target_listeners e d ++ ours) =
  foldl (fun s l =>
           if String.eqb (ev_type l) (event_name e) then
             match callback l with
             | Closure r h => if Nat.eqb r run then call h e s else s
             | Other _ => s
             end
           else s)
        st ours.
Proof.
  intros Hfresh. rewrite foldl_app.
  pose proof (dispatch_fresh run d e st Hfresh) as Hd.
  unfold dispatch in Hd. by rewrite Hd.
Qed.

(** While the widget is mounted each mouse event runs the matching handler
    of the widget once, whatever else listens on the page. *)
Lemma dispatch_mounted (run : nat) (d : Document) (e : MouseEvent)
    (st : CursorState) :
  fresh run d ->
  dispatch run (effect run d) e st =
    match e with
    | mousemove _ _ _ => call handleMouseMove e st
    | mouseenter => call handleMouseEnter e st
    | mouseleave => call handleMouseLeave e st
    end.
Proof.
  intros Hfresh.
  destruct (effect_listeners run d Hfresh) as [Hdoc Hbody].
  unfold dispatch.
  destruct e as [x y i| |]; cbn [target_listeners].
  - rewrite Hdoc.
    rewrite (dispatch_app run (mousemove x y i) st d _ Hfresh).
    cbn. by rewrite Nat.eqb_refl.
  - rewrite Hbody. rewrite (dispatch_app run mouseenter st d _ Hfresh).
    cbn. by rewrite Nat.eqb_refl.
  - rewrite Hbody. rewrite (dispatch_app run mouseleave st d _ Hfresh).
    cbn. by rewrite Nat.eqb_refl.
Qed.

(** X19: while the widget is mounted, on a page with any other listeners, a
    mouse move sets the position to the pointer and [isPointer] to whether
    it is over an interactive element, and leaves [isVisible]; entering and
    leaving the body set [isVisible] and nothing else. *)
Theorem mounted_follows_pointer (run : nat) (d : Document)
    (st : CursorState) (x y : Z) (interactive : bool) :
  fresh run d ->
  dispatch run (effect run d) (mousemove x y interactive) st =
    {| position := (x, y); isPointer := interactive;
       isVisible := isVisible st |} /\
  dispatch run (effect run d) mouseenter st =
    {| position := position st; isPointer := isPointer st;
       isVisible := true |} /\
  dispatch run (effect run d) mouseleave st =
    {| position := position st; isPointer := isPointer st;
       isVisible := false |}.
Proof.
  intros Hfresh. rewrite !dispatch_mounted by done. cbn.
  by destruct interactive.
Qed.

(** X20: what is drawn after a mouse move while mounted and visible: a
    square box whose centre is the pointer; elsewhere it is 24 px wide and
    not scaled, over an interactive element it is 36 px wide and scaled by
    1.1 about its centre, that is, drawn 39.6 px wide. *)
Theorem drawn_centred_on_pointer (run : nat) (d : Document)
    (st : CursorState) (x y : Z) (interactive : bool) :
  fresh run d ->
  isVisible st = true ->
  exists v,
    render (dispatch run (effect run d) (mousemove x y interactive) st)
      = Some v /\
    Variants.x v + Variants.width v / 2 = x /\
    Variants.y v + Variants.height v / 2 = y /\
    Variants.height v = Variants.width v /\
    Variants.width v = (if interactive then 36 else 24) /\
    Variants.scale v = (if interactive then Some 1.1%Q else None) /\
    (drawn_side v == if interactive then 39.6 else 24)%Q.
Proof.
  intros Hfresh Hvis. rewrite dispatch_mounted by done.
  unfold render. cbn. rewrite Hvis. cbn.
  destruct interactive; eexists; (split; [reflexivity|]); cbn;
    repeat split; lia.
Qed.

(** X22: when the pointer leaves the body the widget draws nothing, and
    keeps drawing nothing while the mouse moves, until the pointer enters
    again; the position and pointer flag it had are kept across leaving
    and entering. *)
Theorem hidden_outside_page (run : nat) (d : Document) (st : CursorState)
    (x y : Z) (interactive : bool) :
  fresh run d ->
  render (dispatch run (effect run d) mouseleave st) = None /\
  render (dispatch run (effect run d) (mousemove x y interactive)
            (dispatch run (effect run d) mouseleave st)) = None /\
  dispatch run (effect run d) mouseenter
    (dispatch run (effect run d) mouseleave st) =
    {| position := position st; isPointer := isPointer st;
       isVisible := true |}.
Proof.
  intros Hfresh. rewrite !dispatch_mounted by done. done.
Qed.

Lemma cursor_insert_twice (v w : string) (style : gmap string string) :
  <["cursor" := v]> (<["cursor" := w]> style) = <["cursor" := v]> style.
Proof. apply insert_insert_eq. Qed.

(** X23: mounting, unmounting and mounting again (as React's strict mode
    does) leaves the page exactly as one mount does: one set of listeners,
    [cursor: none]. *)
Theorem remount_is_mount (run run' : nat) (d : Document) :
  fresh run d ->
  fresh run' d ->
  effect run' (cleanup run (effect run d)) = effect run' d.
Proof.
  intros Hfresh Hfresh'.
  destruct (cleanup_effect_listeners run d Hfresh) as [Hdoc Hbody].
  unfold effect at 1. rewrite Hdoc, Hbody.
  unfold cleanup at 1. cbn [body_style].
  unfold effect at 1. cbn [body_style].
  rewrite !cursor_insert_twice. reflexivity.
Qed.

Lemma fresh_effect_other (run run' : nat) (d : Document) :
  run <> run' -> fresh run d -> fresh run' d -> fresh run' (effect run d).
Proof.
  intros Hne Hfresh Hfresh' l h Hin.
  destruct (effect_listeners run d Hfresh) as [Hdoc Hbody].
  rewrite Hdoc, Hbody in Hin.
  rewrite !elem_of_app, !elem_of_cons, elem_of_nil in Hin.
  destruct Hin as [[Hin| [-> | []]]|[Hin| [-> | [-> | []]]]].
  - apply Hfresh'. apply elem_of_app. by left.
  - cbn. congruence.
  - apply Hfresh'. apply elem_of_app. by right.
  - cbn. congruence.
  - cbn. congruence.
Qed.

(** X24: with two widgets mounted, the cleanup of the first takes off its
    own three listeners and leaves those of the second in place, but sets
    [cursor: auto] although the second widget is still mounted. *)
Theorem cleanup_with_second_widget (run run' : nat) (d : Document) :
  run <> run' ->
  fresh run d ->
  fresh run' d ->
  document_listeners (cleanup run (effect run' (effect run d))) =
    document_listeners (effect run' d) /\
  body_listeners (cleanup run (effect run' (effect run d))) =
    body_listeners (effect run' d) /\
  body_style (cleanup run (effect run' (effect run d))) !! "cursor" =
    Some "auto".
Proof.
  intros Hne Hfresh Hfresh'.
  pose proof (fresh_effect_other run run' d Hne Hfresh Hfresh') as Hfresh2.
  destruct (effect_listeners run' _ Hfresh2) as [Hdoc2 Hbody2].
  destruct (effect_listeners run d Hfresh) as [Hdoc1 Hbody1].
  destruct (effect_listeners run' d Hfresh') as [Hdoc Hbody].
  pose proof (fresh_absent run d) as Habs.
  assert (Nat.eqb run run' = false) as Hneb by by apply Nat.eqb_neq.
  split; [|split]; [| |apply lookup_insert_eq].
  - unfold cleanup. cbn -[effect]. rewrite Hdoc2, Hdoc1, Hdoc.
    rewrite !remove_app, remove_here.
    rewrite remove_absent by by apply Habs.
    unfold removeEventListener, Listener_eqb. cbn. rewrite Hneb. cbn.
    by rewrite app_nil_r.
  - unfold cleanup. cbn -[effect]. rewrite Hbody2, Hbody1, Hbody.
    rewrite !remove_app.
    rewrite (remove_absent _ (body_listeners d)) by by apply Habs.
    rewrite (remove_absent _ (body_listeners d)) by by apply Habs.
    unfold removeEventListener, Listener_eqb. cbn.
    repeat (rewrite ?Nat.eqb_refl, ?Hneb; cbn).
    by rewrite app_nil_r.
Qed.

Lemma dispatch_after_cleanup_witness :
  fresh 0 busy_page /\
  dispatch 0 (cleanup 0 (effect 0 busy_page)) (mousemove 10 20 true) initial
    = initial.
Proof.
  split; [exact busy_page_fresh|].
  exact (dispatch_after_cleanup 0 busy_page _ initial busy_page_fresh).
Defined.

Lemma mounted_follows_pointer_witness :
  fresh 0 busy_page /\
  dispatch 0 (effect 0 busy_page) (mousemove 10 20 true) initial =
    {| position := (10, 20); isPointer := true; isVisible := true |}.
Proof.
  split; [exact busy_page_fresh|].
  exact (proj1 (mounted_follows_pointer 0 busy_page initial 10 20 true
                  busy_page_fresh)).
Defined.

Lemma drawn_centred_on_pointer_witness :
  fresh 0 busy_page /\ isVisible initial = true /\
  exists v,
    render (dispatch 0 (effect 0 busy_page) (mousemove 100 50 true) initial)
      = Some v /\
    Variants.x v + Variants.width v / 2 = 100 /\
    (drawn_side v == 39.6)%Q.
Proof.
  split; [exact busy_page_fresh|]. split; [reflexivity|].
  destruct (drawn_centred_on_pointer 0 busy_page initial 100 50 true
              busy_page_fresh eq_refl)
    as (v & Hv & Hx & _ & _ & _ & _ & Hside).
  exists v. auto.
Defined.

Lemma hidden_outside_page_witness :
  fresh 0 busy_page /\
  render (dispatch 0 (effect 0 busy_page) mouseleave initial) = None.
Proof.
  split; [exact busy_page_fresh|].
  exact (proj1 (hidden_outside_page 0 busy_page initial 0 0 false
                  busy_page_fresh)).
Defined.

Lemma busy_page_fresh_1 : fresh 1 busy_page.
Proof.
  intros l h Hin. cbn in Hin.
  apply list_elem_of_singleton in Hin as ->. discriminate.
Defined.

Lemma remount_is_mount_witness :
  fresh 0 busy_page /\ fresh 1 busy_page /\
  effect 1 (cleanup 0 (effect 0 busy_page)) = effect 1 busy_page.
Proof.
  split; [exact busy_page_fresh|]. split; [exact busy_page_fresh_1|].
  exact (remount_is_mount 0 1 busy_page busy_page_fresh busy_page_fresh_1).
Defined.

Lemma cleanup_with_second_widget_witness :
  0%nat <> 1%nat /\ fresh 0 busy_page /\ fresh 1 busy_page /\
  document_listeners (cleanup 0 (effect 1 (effect 0 busy_page))) =
    document_listeners (effect 1 busy_page).
Proof.
  assert (0%nat <> 1%nat) as Hne by discriminate.
  split; [exact Hne|].
  split; [exact busy_page_fresh|]. split; [exact busy_page_fresh_1|].
  exact (proj1 (cleanup_with_second_widget 0 1 busy_page Hne
                  busy_page_fresh busy_page_fresh_1)).
Defined.

End CustomCursorExtra.

(** ** The paged lists of ProjectsPage and CertificatesPage *)
Module PagesFacts.
Import Pages.

Section Paged.

Context {A : Type}.
Variable all : list A.

Lemma visible_nonneg (visibleCount : Z) :
  0 <= visibleCount ->
  visible all visibleCount = take (Z.to_nat visibleCount) all.
Proof.
  intros Hc. unfold visible, slice0.
  destruct (Z.ltb_spec visibleCount 0); [lia|].
  destruct (Z.le_gt_cases visibleCount (Z.of_nat (length all))).
  - by rewrite Z.min_l.
  - rewrite Z.min_r, Nat2Z.id by lia.
    rewrite !take_ge; [done| lia | lia].
Qed.

Lemma take_all_iff (k : nat) : take k all = all <-> (length all <= k)%nat.
Proof.
  split.
  - intros Heq. apply (f_equal length) in Heq.
    rewrite length_take in Heq. lia.
  - apply take_ge.
Qed.

(** X25: for a counter that is not negative, the page shows the first
    [visibleCount] items (all of them when there are fewer); the "See More"
    button is there exactly when some item is not shown, and the "Coming
    Soon!" card of ProjectsPage exactly when every item is shown. *)
Theorem seeMore_iff_hidden (visibleCount : Z) :
  0 <= visibleCount ->
  visible all visibleCount = take (Z.to_nat visibleCount) all /\
  (seeMore_shown all visibleCount = true <->
     visible all visibleCount <> all) /\
  (comingSoon_shown all visibleCount = true <->
     visible all visibleCount = all) /\
  comingSoon_shown all visibleCount = negb (seeMore_shown all visibleCount).
Proof.
  intros Hc. rewrite visible_nonneg by done.
  unfold seeMore_shown, comingSoon_shown.
  rewrite take_all_iff. split; [done|].
  rewrite Z.geb_leb.
  destruct (Z.ltb_spec visibleCount (Z.of_nat (length all)));
    destruct (Z.leb_spec (Z.of_nat (length all)) visibleCount);
    try lia; (split; [|split]); try done; split; try done; lia.
Qed.

(** X26: after [showAllProjects]/[showAllCertificates], from any counter,
    every item is shown, the "See More" button is gone and the
    "Coming Soon!" card is there. *)
Theorem showAll_reveals (visibleCount : Z) :
  visible all (showAll all visibleCount) = all /\
  seeMore_shown all (showAll all visibleCount) = false /\
  comingSoon_shown all (showAll all visibleCount) = true.
Proof.
  unfold showAll. rewrite visible_nonneg by lia.
  unfold seeMore_shown, comingSoon_shown.
  rewrite Nat2Z.id, firstn_all, Z.ltb_irrefl, Z.geb_leb, Z.leb_refl. done.
Qed.

Lemma after_clicks_cases (n : nat) (visibleCount : Z) :
  after_clicks all n visibleCount = visibleCount \/
  after_clicks all n visibleCount = Z.of_nat (length all).
Proof.
  revert visibleCount. induction n as [|n IH]; intros c; cbn; [by left|].
  destruct (seeMore_shown all c); [|by left].
  destruct (IH (showAll all c)) as [-> | ->]; by right.
Qed.

(** X27: starting from the initial counter 6, after one or more clicks on
    "See More" (which is only there while something is hidden) the page
    shows every item and the button is gone; the counter is then 6 or the
    length of the list. *)
Theorem see_more_shows_everything (n : nat) :
  (1 <= n)%nat ->
  visible all (after_clicks all n initialCount) = all /\
  seeMore_shown all (after_clicks all n initialCount) = false /\
  (after_clicks all n initialCount = initialCount \/
   after_clicks all n initialCount = Z.of_nat (length all)).
Proof.
  intros Hn.
  cut (visible all (after_clicks all n initialCount) = all /\
       seeMore_shown all (after_clicks all n initialCount) = false).
  { intros [Hv Hs]. split; [done|]. split; [done|].
    apply after_clicks_cases. }
  destruct n as [|n]; [lia|]. cbn.
  destruct (seeMore_shown all initialCount) eqn:Hs.
  - assert (after_clicks all n (showAll all initialCount) =
            Z.of_nat (length all)) as ->.
    { destruct (after_clicks_cases n (showAll all initialCount))
        as [-> | ->]; done. }
    rewrite visible_nonneg by lia.
    unfold seeMore_shown. rewrite Nat2Z.id, firstn_all, Z.ltb_irrefl. done.
  - split; [|done].
    unfold seeMore_shown in Hs. apply Z.ltb_ge in Hs.
    rewrite visible_nonneg by (unfold initialCount; lia).
    apply take_ge. unfold initialCount in *. lia.
Qed.

End Paged.

Lemma seeMore_iff_hidden_witness :
  0 <= initialCount /\
  visible allProjects initialCount = take (Z.to_nat initialCount) allProjects.
Proof.
  assert (0 <= initialCount) as H by (unfold initialCount; lia).
  split; [exact H|].
  exact (proj1 (seeMore_iff_hidden allProjects initialCount H)).
Defined.

(** A list of eight items: six are shown, and one click shows the rest. *)
Lemma see_more_shows_everything_witness :
  (1 <= 1)%nat /\
  visible (seq 0 8) (after_clicks (seq 0 8) 1 initialCount) = seq 0 8 /\
  visible (seq 0 8) initialCount = seq 0 6.
Proof.
  assert (1 <= 1)%nat as H by lia.
  split; [exact H|].
  split; [|reflexivity].
  exact (proj1 (see_more_shows_everything (seq 0 8) 1 H)).
Defined.

(** The two pages of the site hold fewer than six items: everything is
    shown from the start and there is no button. *)
Example pages_of_the_site :
  visible allProjects initialCount = allProjects /\
  seeMore_shown allProjects initialCount = false /\
  comingSoon_shown allProjects initialCount = true /\
  visible allCertificates initialCount = allCertificates /\
  seeMore_shown allCertificates initialCount = false.
Proof. repeat split; reflexivity. Qed.

End PagesFacts.
